(** * proxyd: start-up validation and wiring ([proxyd/proxyd.go])

    A shallow embedding of [Start], [secondsToDuration],
    [configureBackendTLS], [makeUint64LastValueFn] and its two
    instantiations, together with the properties the specification states
    about them.

    Conventions.
    - Go maps ([map[string]T]) are [gmap string T]; a nil-able map is an
      [option] of it.
    - Go integers are [Z]; where the source can overflow the wrap-around is
      written out ([wrap64], [mod 2^64]).
    - A Go result [(T, error)] of a fallible call is [Result T]; the reader
      closure of [makeUint64LastValueFn], whose numeric component matters
      also on failure, keeps the Go pair [Z * option error].
    - The empty Go string is [EmptyString]. *)

From Stdlib Require Import ZArith Lia Ascii String.
From stdpp Require Import base option list gmap strings.

Local Open Scope Z_scope.

(** ** Errors *)

(** [strconv.ErrSyntax] and [strconv.ErrRange]. *)
Inductive NumErrKind : Type := ErrSyntax | ErrRange.

(** Go [error] values as this file produces them: [errors.New] and
    [fmt.Errorf] without [%w] give [errorString] (the message rendered),
    [fmt.Errorf] with [%w] gives [wrapError], [strconv] gives [NumError]. *)
Inductive error : Type :=
  | errorString (msg : string)
  | wrapError (msg : string) (err : error)
  | NumError (Func Num : string) (Err : NumErrKind).

Inductive Result (A : Type) : Type :=
  | Ok (a : A)
  | Error (e : error).
Arguments Ok {A} a.
Arguments Error {A} e.

#[global] Instance Result_ret : MRet Result := λ A a, Ok a.
#[global] Instance Result_bind : MBind Result :=
  λ A B k m, match m with Ok a => k a | Error e => Error e end.

Definition is_Ok {A} (r : Result A) : bool :=
  match r with Ok _ => true | Error _ => false end.
Definition is_Error {A} (r : Result A) : bool :=
  match r with Ok _ => false | Error _ => true end.

(** A [for ... range] loop with an early [return err] in its body: the
    accumulator is threaded through the elements in order and the first
    error ends the loop. *)
Fixpoint foldM {A S : Type} (f : S → A → Result S) (l : list A) (s : S)
  : Result S :=
  match l with
  | [] => Ok s
  | x :: l' => s' ← f s x; foldM f l' s'
  end.

Definition nonempty (s : string) : bool :=
  match s with EmptyString => false | String _ _ => true end.

(** ** [strconv.ParseUint(s, 10, 64)]

    The Go standard library routine, at the base and bit size the source
    calls it with.  The loop keeps its shape: a byte is a decimal digit, a
    letter (digit value at least 10, rejected because it is not below the
    base) or anything else; [n >= cutoff] detects that [n * base]
    overflows, the wrapped sum detects that [n + d] does. *)

Definition maxUint64 : Z := 2 ^ 64 - 1.

Definition byte_of (ch : ascii) : Z := Z.of_N (N_of_ascii ch).

(** [lower(c) = c | ('x' - 'X')]. *)
Definition lower (c : Z) : Z := Z.lor c 32.

Definition syntaxError (fn str : string) : error := NumError fn str ErrSyntax.
Definition rangeError (fn str : string) : error := NumError fn str ErrRange.

Definition digit_of (c : Z) : option Z :=
  if (48 <=? c) && (c <=? 57) then Some (c - 48)
  else if (97 <=? lower c) && (lower c <=? 122) then Some (lower c - 97 + 10)
  else None.

Fixpoint ParseUint_loop (base cutoff maxVal : Z) (s0 s : string) (n : Z)
  : Z * option error :=
  match s with
  | EmptyString => (n, None)
  | String ch rest =>
      match digit_of (byte_of ch) with
      | None => (0, Some (syntaxError "ParseUint" s0))
      | Some d =>
          if base <=? d then (0, Some (syntaxError "ParseUint" s0))
          else if cutoff <=? n then (maxVal, Some (rangeError "ParseUint" s0))
          else
            let n' := (n * base) mod 2 ^ 64 in
            let n1 := (n' + d) mod 2 ^ 64 in
            if (n1 <? n') || (maxVal <? n1)
            then (maxVal, Some (rangeError "ParseUint" s0))
            else ParseUint_loop base cutoff maxVal s0 rest n1
      end
  end.

Definition ParseUint_10_64 (s : string) : Z * option error :=
  match s with
  | EmptyString => (0, Some (syntaxError "ParseUint" s))
  | _ => ParseUint_loop 10 (maxUint64 / 10 + 1) maxUint64 s s 0
  end.

(** What "a decimal uint64" means, independently of the parser: a non-empty
    string of ASCII digits whose value fits in 64 bits. *)
Definition is_digit (ch : ascii) : bool :=
  (48 <=? byte_of ch) && (byte_of ch <=? 57).

Fixpoint all_digits (s : string) : bool :=
  match s with
  | EmptyString => true
  | String ch rest => is_digit ch && all_digits rest
  end.

Fixpoint decimal_value (acc : Z) (s : string) : Z :=
  match s with
  | EmptyString => acc
  | String ch rest => decimal_value (acc * 10 + (byte_of ch - 48)) rest
  end.

Definition decimal_uint64 (s : string) : Prop :=
  nonempty s = true ∧ all_digits s = true ∧ decimal_value 0 s ≤ maxUint64.

(** ** Collaborators of the last-value cache *)

(** The chain client handle returned by [ethclient.Dial]. *)
Record EthClient : Type := { ec_url : string }.

Record RedisClient : Type := { redis_url : string }.

(** The three [Cache] implementations [Start] chooses among. *)
Inductive Cache : Type :=
  | newMemoryCache
  | newRedisCache (client : RedisClient)
  | newCacheWithCompression (cache : Cache).

(** The two updater closures handed to [makeUint64LastValueFn]. *)
Inductive lvcUpdateFn : Type :=
  | updateBlockNumber   (* strconv.FormatUint(c.BlockNumber(ctx), 10) *)
  | updateGasPrice.     (* c.SuggestGasPrice(ctx).String() *)

(** [newLVC(client, cache, key, updater)] followed by [lvc.Start()]. *)
Record EthLastValueCache : Type := {
  lvc_client : EthClient;
  lvc_cache : Cache;
  lvc_key : string;
  lvc_updater : lvcUpdateFn;
  lvc_started : bool
}.

Definition newLVC (client : EthClient) (cache : Cache) (key : string)
    (updater : lvcUpdateFn) : EthLastValueCache :=
  {| lvc_client := client; lvc_cache := cache; lvc_key := key;
     lvc_updater := updater; lvc_started := false |}.

Definition lvc_Start (lvc : EthLastValueCache) : EthLastValueCache :=
  {| lvc_client := lvc_client lvc; lvc_cache := lvc_cache lvc;
     lvc_key := lvc_key lvc; lvc_updater := lvc_updater lvc;
     lvc_started := true |}.

(** The closure returned by [makeUint64LastValueFn]: it captures [lvc] and
    [key]. *)
Record Uint64LastValueFn : Type := {
  fn_lvc : EthLastValueCache;
  fn_key : string
}.

(** One call of the closure.  [read] is what [lvc.Read(ctx)] returned on
    that call, as the Go pair (value, err). *)
Definition call_Uint64LastValueFn (fn : Uint64LastValueFn)
    (read : string * option error) : Z * option error :=
  let '(value, err) := read in
  match err with
  | Some e => (0, Some e)
  | None =>
      if nonempty value then
        let '(valueUint, err) := ParseUint_10_64 value in
        match err with
        | Some e => (0, Some e)
        | None => (valueUint, None)
        end
      else (0, Some (errorString (fn_key fn ++ " is unavailable")))
  end.

Definition makeUint64LastValueFn (client : EthClient) (cache : Cache)
    (key : string) (updater : lvcUpdateFn)
  : EthLastValueCache * Uint64LastValueFn :=
  let lvc := lvc_Start (newLVC client cache key updater) in
  (lvc, {| fn_lvc := lvc; fn_key := key |}).

Definition makeGetLatestBlockNumFn (client : EthClient) (cache : Cache) :=
  makeUint64LastValueFn client cache "lvc:block_number" updateBlockNumber.

Definition makeGetLatestGasPriceFn (client : EthClient) (cache : Cache) :=
  makeUint64LastValueFn client cache "lvc:gas_price" updateGasPrice.

(** ** The updater closures (lines 409-412 and 416-422)

    [strconv.FormatUint(n, 10)] and [String()] on a [big.Int] print a number in
    decimal without leading zeros, the latter with a minus sign in front of
    a negative one.  The digits are produced from the least significant one;
    [fuel] bounds the number of digits (a number below [2 ^ fuel] has at
    most [fuel] of them). *)

Fixpoint formatDecimal_loop (fuel : nat) (n : Z) (acc : string) : string :=
  match fuel with
  | O => acc
  | S fuel' =>
      let acc' := String (ascii_of_N (Z.to_N (48 + n mod 10))) acc in
      if n / 10 =? 0 then acc' else formatDecimal_loop fuel' (n / 10) acc'
  end.

Definition formatDecimal (n : Z) : string :=
  formatDecimal_loop (S (Z.to_nat (Z.log2 n))) n EmptyString.

(** [strconv.FormatUint(n, 10)], for [n] a uint64. *)
Definition FormatUint_10 (n : Z) : string := formatDecimal n.

(** [x.String()] for a non-nil pointer [x] to a [big.Int]. *)
Definition bigInt_String (x : Z) : string :=
  if x <? 0 then String "-"%char (formatDecimal (- x)) else formatDecimal x.

(** The updater of [makeGetLatestBlockNumFn], given what
    [c.BlockNumber(ctx)] returned: the number is formatted whether or not
    the call failed, and the error is passed on. *)
Definition blockNumberUpdater (blockNumber : Z * option error)
  : string * option error :=
  let '(blockNum, err) := blockNumber in
  (FormatUint_10 blockNum, err).

(** The updater of [makeGetLatestGasPriceFn], given what
    [c.SuggestGasPrice(ctx)] returned. *)
Definition gasPriceUpdater (suggested : Z * option error)
  : string * option error :=
  let '(gasPrice, err) := suggested in
  match err with
  | Some e => (EmptyString, Some e)
  | None => (bigInt_String gasPrice, None)
  end.

(** ** Configuration *)

(** Modelled from the spec: the [Config] struct and its parts are declared in
    config.go, which is not among the sources; the records below carry the
    fields [Start] reads, with the names it reads them by (section 6 of the
    specification lists the same options).  Durations ([TOMLDuration]) are
    nanosecond counts; [MaxErrorRateThreshold] is a float64, kept as its
    IEEE-754 bit pattern. *)
Record BackendConfig : Type := {
  Username : string;
  Password : string;
  RPCURL : string;
  WSURL : string;
  MaxRPS : Z;
  MaxWSConns : Z;
  CAFile : string;
  ClientCertFile : string;
  ClientKeyFile : string;
  StripTrailingXFF : bool;
  SkipPeerCountCheck : bool
}.

Record BackendGroupConfig : Type := {
  bg_Backends : list string;
  ConsensusAware : bool;
  ConsensusAsyncHandler : string;
  ConsensusBanPeriod : Z;
  ConsensusMaxUpdateThreshold : Z;
  ConsensusMaxBlockLag : Z;
  ConsensusMinPeerCount : Z
}.

Record ServerConfig : Type := {
  RPCHost : string;
  RPCPort : Z;
  WSHost : string;
  WSPort : Z;
  MaxBodySizeBytes : Z;
  TimeoutSeconds : Z;
  MaxConcurrentRPCs : Z;
  MaxUpstreamBatchSize : Z;
  EnableRequestLog : bool;
  MaxRequestBodyLogLen : Z
}.

Record CacheConfig : Type := {
  cache_Enabled : bool;
  BlockSyncRPCURL : string;
  NumBlockConfirmations : Z
}.

Record RedisConfig : Type := { URL : string }.

Record MetricsConfig : Type := {
  metrics_Enabled : bool;
  metrics_Host : string;
  metrics_Port : Z
}.

Record RateLimitConfig : Type := {
  UseRedis : bool;
  EnableBackendRateLimiter : bool;
  rl_ErrorMessage : string
}.

Record SenderRateLimitConfig : Type := {
  srl_Enabled : bool;
  Limit : Z;
  Interval : Z
}.

Record BatchConfig : Type := {
  MaxSize : Z;
  batch_ErrorMessage : string
}.

Record BackendOptions : Type := {
  ResponseTimeoutSeconds : Z;
  MaxRetries : Z;
  MaxResponseSizeBytes : Z;
  OutOfServiceSeconds : Z;
  MaxDegradedLatencyThreshold : Z;
  MaxLatencyThreshold : Z;
  MaxErrorRateThreshold : Z
}.

Record Config : Type := {
  WSBackendGroup : string;
  Server_ : ServerConfig;
  Cache_ : CacheConfig;
  Redis : RedisConfig;
  Metrics : MetricsConfig;
  RateLimit : RateLimitConfig;
  BackendOptions_ : BackendOptions;
  Backends : gmap string BackendConfig;
  Authentication : option (gmap string string);
  BackendGroups : gmap string BackendGroupConfig;
  RPCMethodMappings : gmap string string;
  WSMethodWhitelist : list string;
  WhitelistErrorMessage : string;
  SenderRateLimit : SenderRateLimitConfig;
  BatchConfig_ : BatchConfig
}.

(** ** Objects built by [Start] *)

Record Certificate : Type := { certFile : string; keyFile : string }.

Record TLSConfig : Type := { RootCAs : string; Certificates : list Certificate }.

Inductive BackendRateLimiter : Type :=
  | NewRedisRateLimiter (client : RedisClient)
  | NewLocalBackendRateLimiter
  | noopBackendRateLimiter.

(** [semaphore.NewWeighted(n)]. *)
Record Semaphore : Type := NewWeighted { sem_size : Z }.

Inductive BackendOpt : Type :=
  | WithTimeout (d : Z)
  | WithMaxRetries (n : Z)
  | WithMaxResponseSize (n : Z)
  | WithOutOfServiceDuration (d : Z)
  | WithMaxDegradedLatencyThreshold (d : Z)
  | WithMaxLatencyThreshold (d : Z)
  | WithMaxErrorRateThreshold (bits : Z)
  | WithMaxRPS (n : Z)
  | WithMaxWSConns (n : Z)
  | WithBasicAuth (username password : string)
  | WithTLSConfig (tls : TLSConfig)
  | WithStrippedTrailingXFF
  | WithProxydIP (ip : string)
  | WithSkipPeerCountCheck (skip : bool).

(** [NewBackend(name, rpcURL, wsURL, lim, rpcSemaphore, opts...)]: the
    backend is represented by the arguments it is built from. *)
Record Backend : Type := NewBackend {
  b_name : string;
  b_rpcURL : string;
  b_wsURL : string;
  b_rateLimiter : BackendRateLimiter;
  b_rpcSemaphore : Semaphore;
  b_opts : list BackendOpt
}.

Inductive AsyncHandler : Type := NewNoopAsyncHandler.

Inductive ConsensusOpt : Type :=
  | WithAsyncHandler (h : AsyncHandler)
  | WithBanPeriod (d : Z)
  | WithMaxUpdateThreshold (d : Z)
  | WithMaxBlockLag (n : Z)
  | WithMinPeerCount (n : Z).

(** [NewConsensusPoller(bg, opts...)].  A [*BackendGroup] is represented by
    the key under which [Start] stores the group in [backendGroups]: one
    group is allocated per key and an entry is never reassigned, so keys and
    pointers correspond one to one. *)
Record ConsensusPoller : Type := NewConsensusPoller {
  cp_backendGroup : string;
  cp_opts : list ConsensusOpt
}.

Record BackendGroup : Type := {
  Name : string;
  bg_backends : list Backend;
  Consensus : option ConsensusPoller
}.

Record RPCCache : Type := newRPCCache {
  rc_cache : Cache;
  rc_getLatestBlockNumFn : Uint64LastValueFn;
  rc_getLatestGasPriceFn : Uint64LastValueFn;
  rc_numBlockConfirmations : Z
}.

(** The arguments of [NewServer], in order.  [sa_backendGroups] is the
    contents of the group store at the time of the call; the server keeps
    the groups by pointer, so what it observes later is the store [Start]
    returns with. *)
Record Server : Type := {
  sa_backendGroups : gmap string BackendGroup;
  sa_wsBackendGroup : option string;
  sa_wsMethodWhitelist : gset string;
  sa_rpcMethodMappings : gmap string string;
  sa_maxBodySize : Z;
  sa_authenticatedPaths : option (gmap string string);
  sa_timeout : Z;
  sa_maxUpstreamBatchSize : Z;
  sa_cache : option RPCCache;
  sa_rateLimitConfig : RateLimitConfig;
  sa_senderRateLimitConfig : SenderRateLimitConfig;
  sa_enableRequestLog : bool;
  sa_maxRequestBodyLogLen : Z;
  sa_maxBatchSize : Z;
  sa_redisClient : option RedisClient
}.

(** The three package-level error values whose [Message] field [Start]
    assigns (they are declared in another file of the package). *)
Record Globals : Type := {
  ErrOverRateLimit_Message : string;
  ErrMethodNotWhitelisted_Message : string;
  ErrTooManyBatchRequests_Message : string
}.

(** Servers [Start] launches on their own goroutines. *)
Inductive Goroutine : Type :=
  | metricsServer (host : string) (port : Z)
  | RPCListenAndServe (host : string) (port : Z)
  | WSListenAndServe (host : string) (port : Z).

(** What the returned [shutdownFunc] closes over. *)
Record ShutdownFunc : Type := {
  sd_blockNumLVC : option EthLastValueCache;
  sd_gasPriceLVC : option EthLastValueCache;
  sd_srv : Server;
  sd_lim : BackendRateLimiter;
  sd_backendNames : list string
}.

(** A successful return of [Start]: the server, the shutdown closure, and
    the state it leaves behind (the group store and the goroutines
    launched). *)
Record Started : Type := {
  st_srv : Server;
  st_shutdownFunc : ShutdownFunc;
  st_backendGroups : gmap string BackendGroup;
  st_goroutines : list Goroutine
}.

(** ** Collaborators

    Functions of the package and of its dependencies that [Start] calls and
    that are defined outside proxyd.go, together with the order in which a
    [range] over a map visits it ([range site m] is the order taken by the
    loop at source line [site]; Go leaves it unspecified). *)
Record Env : Type := {
  range : Z → ∀ A : Type, gmap string A → list (string * A);
  ReadFromEnvOrConfig : string → Result string;
  NewRedisClient : string → Result RedisClient;
  CreateTLSClient : string → Result TLSConfig;
  ParseKeyPair : string → string → Result Certificate;
  ethclient_Dial : string → Result EthClient;
  NewServer_error : Server → option error;
  os_Getenv : string → string
}.

(** Every [range] visits each entry of the map exactly once. *)
Definition range_sound (E : Env) : Prop :=
  ∀ (site : Z) (A : Type) (m : gmap string A),
    range E site A m ≡ₚ map_to_list m.

Definition NewServer (E : Env) (args : Server) : Result Server :=
  match NewServer_error E args with
  | Some e => Error e
  | None => Ok args
  end.

(** ** [Start] *)

Definition time_Second : Z := 1000000000.
Definition math_MaxInt64 : Z := 2 ^ 63 - 1.

(** Two's-complement wrap-around of int64 arithmetic. *)
Definition wrap64 (z : Z) : Z := (z + 2 ^ 63) mod 2 ^ 64 - 2 ^ 63.

Definition secondsToDuration (seconds : Z) : Z := wrap64 (seconds * time_Second).

(** [x > 0] on a float64 given by its bit pattern: the sign bit is clear,
    the value is not zero and not a NaN. *)
Definition float64_gt_zero (bits : Z) : bool :=
  (0 <? bits) && (bits <=? 0x7FF0000000000000).

Definition configureBackendTLS (E : Env) (cfg : BackendConfig)
  : Result (option TLSConfig) :=
  if nonempty (CAFile cfg) then
    tlsConfig ← CreateTLSClient E (CAFile cfg);
    if nonempty (ClientCertFile cfg) && nonempty (ClientKeyFile cfg) then
      cert ← ParseKeyPair E (ClientCertFile cfg) (ClientKeyFile cfg);
      Ok (Some {| RootCAs := RootCAs tlsConfig; Certificates := [cert] |})
    else Ok (Some tlsConfig)
  else Ok None.

(** [if cond { return nil, nil, err }]. *)
Definition failIf (cond : bool) (err : error) : Result unit :=
  if cond then Error err else Ok tt.

(** [opts = append(opts, o)] under a condition. *)
Definition appendIf {A} (cond : bool) (o : A) (opts : list A) : list A :=
  if cond then opts ++ [o] else opts.

(** Lines 22-30: the three emptiness checks. *)
Definition checkNonEmpty (config : Config) : Result unit :=
  failIf (Nat.eqb (size (Backends config)) 0)
    (errorString "must define at least one backend");;
  failIf (Nat.eqb (size (BackendGroups config)) 0)
    (errorString "must define at least one backend group");;
  failIf (Nat.eqb (size (RPCMethodMappings config)) 0)
    (errorString "must define at least one RPC method mapping").

(** Lines 32-36: the loop over the keys of [config.Authentication]; a
    [range] with one variable yields the keys, here the secrets. *)
Definition checkAuthKeys (E : Env) (config : Config) : Result unit :=
  match Authentication config with
  | None => Ok tt
  | Some auth =>
      foldM (λ _ '(authKey, _),
               failIf (String.eqb authKey "none")
                 (errorString "cannot use none as an auth key"))
        (range E 32 _ auth) tt
  end.

(** Lines 38-52. *)
Definition connectRedis (E : Env) (config : Config)
  : Result (option RedisClient) :=
  redisClient ←
    (if nonempty (URL (Redis config)) then
       rURL ← ReadFromEnvOrConfig E (URL (Redis config));
       client ← NewRedisClient E rURL;
       Ok (Some client)
     else Ok None);
  failIf (bool_decide (redisClient = None) && UseRedis (RateLimit config))
    (errorString
       "must specify a Redis URL if UseRedis is true in rate limit config");;
  Ok redisClient.

(** Lines 54-65. *)
Definition chooseRateLimiter (config : Config)
    (redisClient : option RedisClient) : BackendRateLimiter :=
  if EnableBackendRateLimiter (RateLimit config) then
    match redisClient with
    | Some client => NewRedisRateLimiter client
    | None => NewLocalBackendRateLimiter
    end
  else noopBackendRateLimiter.

(** Lines 71-79: the assignments to the package-level error values. *)
Definition setErrorMessages (config : Config) (g : Globals) : Globals :=
  {| ErrOverRateLimit_Message :=
       if nonempty (rl_ErrorMessage (RateLimit config))
       then rl_ErrorMessage (RateLimit config)
       else ErrOverRateLimit_Message g;
     ErrMethodNotWhitelisted_Message :=
       if nonempty (WhitelistErrorMessage config)
       then WhitelistErrorMessage config
       else ErrMethodNotWhitelisted_Message g;
     ErrTooManyBatchRequests_Message :=
       if nonempty (batch_ErrorMessage (BatchConfig_ config))
       then batch_ErrorMessage (BatchConfig_ config)
       else ErrTooManyBatchRequests_Message g |}.

(** Lines 81-88. *)
Definition checkSenderRateLimit (config : Config) : Result unit :=
  if srl_Enabled (SenderRateLimit config) then
    failIf (Limit (SenderRateLimit config) <=? 0)
      (errorString "limit in sender_rate_limit must be > 0");;
    failIf (Interval (SenderRateLimit config) <? time_Second)
      (errorString "interval in sender_rate_limit must be >= 1s")
  else Ok tt.

(** Lines 90-94. *)
Definition rpcRequestSemaphore (config : Config) : Semaphore :=
  let maxConcurrentRPCs := MaxConcurrentRPCs (Server_ config) in
  NewWeighted
    (if maxConcurrentRPCs =? 0 then math_MaxInt64 else maxConcurrentRPCs).

(** Lines 99-165: the body of the loop over [config.Backends]. *)
Definition configureBackend (E : Env) (config : Config)
    (lim : BackendRateLimiter) (sem : Semaphore)
    (name : string) (cfg : BackendConfig) : Result Backend :=
  let bo := BackendOptions_ config in
  rpcURL ← ReadFromEnvOrConfig E (RPCURL cfg);
  wsURL ← ReadFromEnvOrConfig E (WSURL cfg);
  failIf (negb (nonempty rpcURL))
    (errorString ("must define an RPC URL for backend " ++ name));;
  let opts : list BackendOpt := [] in
  let opts := appendIf (negb (ResponseTimeoutSeconds bo =? 0))
                (WithTimeout (secondsToDuration (ResponseTimeoutSeconds bo))) opts in
  let opts := appendIf (negb (MaxRetries bo =? 0))
                (WithMaxRetries (MaxRetries bo)) opts in
  let opts := appendIf (negb (MaxResponseSizeBytes bo =? 0))
                (WithMaxResponseSize (MaxResponseSizeBytes bo)) opts in
  let opts := appendIf (negb (OutOfServiceSeconds bo =? 0))
                (WithOutOfServiceDuration
                   (secondsToDuration (OutOfServiceSeconds bo))) opts in
  let opts := appendIf (0 <? MaxDegradedLatencyThreshold bo)
                (WithMaxDegradedLatencyThreshold
                   (MaxDegradedLatencyThreshold bo)) opts in
  let opts := appendIf (0 <? MaxLatencyThreshold bo)
                (WithMaxLatencyThreshold (MaxLatencyThreshold bo)) opts in
  let opts := appendIf (float64_gt_zero (MaxErrorRateThreshold bo))
                (WithMaxErrorRateThreshold (MaxErrorRateThreshold bo)) opts in
  let opts := appendIf (negb (MaxRPS cfg =? 0)) (WithMaxRPS (MaxRPS cfg)) opts in
  let opts := appendIf (negb (MaxWSConns cfg =? 0))
                (WithMaxWSConns (MaxWSConns cfg)) opts in
  opts ← (if nonempty (Password cfg) then
            passwordVal ← ReadFromEnvOrConfig E (Password cfg);
            Ok (opts ++ [WithBasicAuth (Username cfg) passwordVal])
          else Ok opts);
  tlsConfig ← configureBackendTLS E cfg;
  let opts := match tlsConfig with
              | Some tls => opts ++ [WithTLSConfig tls]
              | None => opts
              end in
  let opts := appendIf (StripTrailingXFF cfg) WithStrippedTrailingXFF opts in
  let opts := opts ++ [WithProxydIP (os_Getenv E "PROXYD_IP")] in
  let opts := opts ++ [WithSkipPeerCountCheck (SkipPeerCountCheck cfg)] in
  Ok (NewBackend name rpcURL wsURL lim sem opts).

(** Lines 96-166: [backendNames] and [backendsByName]. *)
Definition configureBackends (E : Env) (config : Config)
    (lim : BackendRateLimiter) (sem : Semaphore)
  : Result (list string * gmap string Backend) :=
  foldM (λ '(backendNames, backendsByName) '(name, cfg),
           back ← configureBackend E config lim sem name cfg;
           Ok (backendNames ++ [name], <[name := back]> backendsByName))
    (range E 98 _ (Backends config)) ([], ∅).

(** Lines 170-176: the backends of one group, looked up by name. *)
Definition groupBackends (backendsByName : gmap string Backend)
    (names : list string) : Result (list Backend) :=
  foldM (λ backends bName,
           match backendsByName !! bName with
           | None => Error (errorString ("backend " ++ bName ++ " is not defined"))
           | Some back => Ok (backends ++ [back])
           end)
    names [].

(** Lines 168-182. *)
Definition makeBackendGroups (E : Env) (config : Config)
    (backendsByName : gmap string Backend)
  : Result (gmap string BackendGroup) :=
  foldM (λ backendGroups '(bgName, bg),
           backends ← groupBackends backendsByName (bg_Backends bg);
           let group := {| Name := bgName; bg_backends := backends;
                           Consensus := None |} in
           Ok (<[bgName := group]> backendGroups))
    (range E 169 _ (BackendGroups config)) ∅.

(** Lines 184-194. *)
Definition chooseWSBackendGroup (config : Config)
    (backendGroups : gmap string BackendGroup) : Result (option string) :=
  wsBackendGroup ←
    (if nonempty (WSBackendGroup config) then
       match backendGroups !! WSBackendGroup config with
       | None => Error (errorString ("ws backend group " ++ WSBackendGroup config
                                       ++ " does not exist"))
       | Some _ => Ok (Some (WSBackendGroup config))
       end
     else Ok None);
  failIf (bool_decide (wsBackendGroup = None)
          && negb (WSPort (Server_ config) =? 0))
    (errorString "a ws port was defined, but no ws group was defined");;
  Ok wsBackendGroup.

(** Lines 196-200. *)
Definition checkMethodMappings (E : Env) (config : Config)
    (backendGroups : gmap string BackendGroup) : Result unit :=
  foldM (λ _ '(_, bg),
           match backendGroups !! bg with
           | None => Error (errorString ("undefined backend group " ++ bg))
           | Some _ => Ok tt
           end)
    (range E 196 _ (RPCMethodMappings config)) tt.

(** Lines 202-213. *)
Definition resolveAuth (E : Env) (config : Config)
  : Result (option (gmap string string)) :=
  match Authentication config with
  | None => Ok None
  | Some auth =>
      resolvedAuth ←
        foldM (λ resolvedAuth '(secret, alias),
                 resolvedSecret ← ReadFromEnvOrConfig E secret;
                 Ok (<[resolvedSecret := alias]> resolvedAuth))
          (range E 206 _ auth) (∅ : gmap string string);
      Ok (Some resolvedAuth)
  end.

(** Lines 215-251: [rpcCache], [blockNumLVC], [gasPriceLVC]. *)
Definition setupCache (E : Env) (config : Config)
    (redisClient : option RedisClient)
  : Result (option RPCCache * option EthLastValueCache
            * option EthLastValueCache) :=
  if cache_Enabled (Cache_ config) then
    failIf (negb (nonempty (BlockSyncRPCURL (Cache_ config))))
      (errorString "block sync node required for caching");;
    blockSyncRPCURL ← ReadFromEnvOrConfig E (BlockSyncRPCURL (Cache_ config));
    let cache := match redisClient with
                 | None => newMemoryCache
                 | Some client => newRedisCache client
                 end in
    ethClient ← ethclient_Dial E blockSyncRPCURL;
    let '(blockNumLVC, blockNumFn) := makeGetLatestBlockNumFn ethClient cache in
    let '(gasPriceLVC, gasPriceFn) := makeGetLatestGasPriceFn ethClient cache in
    let rpcCache := newRPCCache (newCacheWithCompression cache) blockNumFn
                      gasPriceFn (NumBlockConfirmations (Cache_ config)) in
    Ok (Some rpcCache, Some blockNumLVC, Some gasPriceLVC)
  else Ok (None, None, None).

(** Lines 274-313: the servers launched in the background. *)
Definition launchServers (config : Config) : list Goroutine :=
  let gs : list Goroutine := [] in
  let gs := appendIf (metrics_Enabled (Metrics config))
              (metricsServer (metrics_Host (Metrics config))
                 (metrics_Port (Metrics config))) gs in
  let gs := appendIf (negb (RPCPort (Server_ config) =? 0))
              (RPCListenAndServe (RPCHost (Server_ config))
                 (RPCPort (Server_ config))) gs in
  appendIf (negb (WSPort (Server_ config) =? 0))
    (WSListenAndServe (WSHost (Server_ config)) (WSPort (Server_ config))) gs.

(** Lines 320-336: the options of one consensus poller. *)
Definition consensusOpts (bgcfg : BackendGroupConfig) : list ConsensusOpt :=
  let copts : list ConsensusOpt := [] in
  let copts := appendIf (String.eqb (ConsensusAsyncHandler bgcfg) "noop")
                 (WithAsyncHandler NewNoopAsyncHandler) copts in
  let copts := appendIf (0 <? ConsensusBanPeriod bgcfg)
                 (WithBanPeriod (ConsensusBanPeriod bgcfg)) copts in
  let copts := appendIf (0 <? ConsensusMaxUpdateThreshold bgcfg)
                 (WithMaxUpdateThreshold (ConsensusMaxUpdateThreshold bgcfg))
                 copts in
  let copts := appendIf (0 <? ConsensusMaxBlockLag bgcfg)
                 (WithMaxBlockLag (ConsensusMaxBlockLag bgcfg)) copts in
  appendIf (0 <? ConsensusMinPeerCount bgcfg)
    (WithMinPeerCount (ConsensusMinPeerCount bgcfg mod 2 ^ 64)) copts.

Definition setConsensus (cp : ConsensusPoller) (bg : BackendGroup)
  : BackendGroup :=
  {| Name := Name bg; bg_backends := bg_backends bg; Consensus := Some cp |}.

(** Lines 316-340, the body of the loop over [backendGroups].
    [bg.Consensus = cp] writes through the pointer [bg], that is, to the
    entry of the store under [bgName].  The key [bgName] is always present
    in [config.BackendGroups], from whose keys [backendGroups] was built. *)
Definition createPoller (config : Config) (store : gmap string BackendGroup)
    (entry : string * BackendGroup) : gmap string BackendGroup :=
  let '(bgName, _) := entry in
  match BackendGroups config !! bgName with
  | Some bgcfg =>
      if ConsensusAware bgcfg then
        let cp := NewConsensusPoller bgName (consensusOpts bgcfg) in
        alter (setConsensus cp) bgName store
      else store
  | None => store
  end.

(** Lines 315-341. *)
Definition createPollers (E : Env) (config : Config)
    (backendGroups : gmap string BackendGroup) : gmap string BackendGroup :=
  fold_left (createPoller config) (range E 315 _ backendGroups) backendGroups.

(** [fmt.Errorf(msg + "%w", err)] on the error branch of a call. *)
Definition wrapResult {A} (msg : string) (r : Result A) : Result A :=
  match r with
  | Ok a => Ok a
  | Error e => Error (wrapError msg e)
  end.

(** Lines 22-65: validation, the Redis client and the rate limiter. *)
Definition Start_validate (E : Env) (config : Config)
  : Result (option RedisClient * BackendRateLimiter) :=
  checkNonEmpty config;;
  checkAuthKeys E config;;
  redisClient ← connectRedis E config;
  Ok (redisClient, chooseRateLimiter config redisClient).

(** Lines 81-361. *)
Definition Start_build (E : Env) (config : Config)
    (redisClient : option RedisClient) (lim : BackendRateLimiter)
  : Result Started :=
  checkSenderRateLimit config;;
  let sem := rpcRequestSemaphore config in
  '(backendNames, backendsByName) ← configureBackends E config lim sem;
  backendGroups ← makeBackendGroups E config backendsByName;
  wsBackendGroup ← chooseWSBackendGroup config backendGroups;
  checkMethodMappings E config backendGroups;;
  resolvedAuth ← resolveAuth E config;
  '(rpcCache, blockNumLVC, gasPriceLVC) ← setupCache E config redisClient;
  srv ← wrapResult "error creating server: "
    (NewServer E
       {| sa_backendGroups := backendGroups;
          sa_wsBackendGroup := wsBackendGroup;
          sa_wsMethodWhitelist := list_to_set (WSMethodWhitelist config);
          sa_rpcMethodMappings := RPCMethodMappings config;
          sa_maxBodySize := MaxBodySizeBytes (Server_ config);
          sa_authenticatedPaths := resolvedAuth;
          sa_timeout := secondsToDuration (TimeoutSeconds (Server_ config));
          sa_maxUpstreamBatchSize := MaxUpstreamBatchSize (Server_ config);
          sa_cache := rpcCache;
          sa_rateLimitConfig := RateLimit config;
          sa_senderRateLimitConfig := SenderRateLimit config;
          sa_enableRequestLog := EnableRequestLog (Server_ config);
          sa_maxRequestBodyLogLen := MaxRequestBodyLogLen (Server_ config);
          sa_maxBatchSize := MaxSize (BatchConfig_ config);
          sa_redisClient := redisClient |});
  let goroutines := launchServers config in
  let backendGroups := createPollers E config backendGroups in
  Ok {| st_srv := srv;
        st_shutdownFunc :=
          {| sd_blockNumLVC := blockNumLVC; sd_gasPriceLVC := gasPriceLVC;
             sd_srv := srv; sd_lim := lim; sd_backendNames := backendNames |};
        st_backendGroups := backendGroups;
        st_goroutines := goroutines |}.

(** [Start(config)], run with the package-level error values in state [g]:
    the state they are left in, and the error or the successful result. *)
Definition Start (E : Env) (config : Config) (g : Globals)
  : Globals * Result Started :=
  match Start_validate E config with
  | Error e => (g, Error e)
  | Ok (redisClient, lim) =>
      (setErrorMessages config g, Start_build E config redisClient lim)
  end.

(** ** A concrete deployment

    One environment and a family of small configurations on which [Start]
    can be run. *)

Definition exampleGetenv (name : string) : string :=
  if String.eqb name "NODE1_URL" then "http://node1:8545"
  else if String.eqb name "PROXYD_IP" then "10.0.0.7"
  else EmptyString.

(** The resolver of the example deployment.  [ReadFromEnvOrConfig] is
    defined outside proxyd.go and is a parameter of [Start] (a field of
    [Env]); every theorem below holds for every resolver.  This instance
    only serves to run the examples: a value that begins with a dollar
    sign is read from [exampleGetenv], any other value is returned as it
    is. *)
Definition exampleReadFromEnvOrConfig (value : string) : Result string :=
  match value with
  | String "$"%char name => Ok (exampleGetenv name)
  | _ => Ok value
  end.

Definition exampleEnv : Env :=
  {| range := λ _ A m, map_to_list m;
     ReadFromEnvOrConfig := exampleReadFromEnvOrConfig;
     NewRedisClient := λ url, Ok {| redis_url := url |};
     CreateTLSClient := λ ca, Ok {| RootCAs := ca; Certificates := [] |};
     ParseKeyPair := λ c k, Ok {| certFile := c; keyFile := k |};
     ethclient_Dial := λ url, Ok {| ec_url := url |};
     NewServer_error := λ _, None;
     os_Getenv := exampleGetenv |}.

Definition exampleBackend (rpcURL : string) : BackendConfig :=
  {| Username := EmptyString; Password := EmptyString;
     RPCURL := rpcURL; WSURL := EmptyString;
     MaxRPS := 0; MaxWSConns := 0;
     CAFile := EmptyString; ClientCertFile := EmptyString;
     ClientKeyFile := EmptyString;
     StripTrailingXFF := false; SkipPeerCountCheck := false |}.

Definition exampleGroup (backends : list string) (aware : bool)
  : BackendGroupConfig :=
  {| bg_Backends := backends; ConsensusAware := aware;
     ConsensusAsyncHandler := "noop";
     ConsensusBanPeriod := 5 * time_Second;
     ConsensusMaxUpdateThreshold := 0;
     ConsensusMaxBlockLag := 8;
     ConsensusMinPeerCount := 3 |}.

Definition exampleServer (maxConcurrentRPCs : Z) : ServerConfig :=
  {| RPCHost := "0.0.0.0"; RPCPort := 8080;
     WSHost := EmptyString; WSPort := 0;
     MaxBodySizeBytes := 1048576; TimeoutSeconds := 10;
     MaxConcurrentRPCs := maxConcurrentRPCs; MaxUpstreamBatchSize := 10;
     EnableRequestLog := false; MaxRequestBodyLogLen := 0 |}.

Definition noSenderRateLimit : SenderRateLimitConfig :=
  {| srl_Enabled := false; Limit := 0; Interval := 0 |}.

Definition noCache : CacheConfig :=
  {| cache_Enabled := false; BlockSyncRPCURL := EmptyString;
     NumBlockConfirmations := 0 |}.

Definition noRateLimit : RateLimitConfig :=
  {| UseRedis := false; EnableBackendRateLimiter := false;
     rl_ErrorMessage := EmptyString |}.

(** The parts of a configuration the examples vary; the rest is fixed. *)
Definition exampleConfig
    (backends : gmap string BackendConfig)
    (groups : gmap string BackendGroupConfig)
    (mappings : gmap string string)
    (auth : option (gmap string string))
    (redisURL : string) (rateLimit : RateLimitConfig)
    (senderRateLimit : SenderRateLimitConfig)
    (cache : CacheConfig) (maxConcurrentRPCs : Z) : Config :=
  {| WSBackendGroup := EmptyString;
     Server_ := exampleServer maxConcurrentRPCs;
     Cache_ := cache;
     Redis := {| URL := redisURL |};
     Metrics := {| metrics_Enabled := false; metrics_Host := EmptyString;
                   metrics_Port := 0 |};
     RateLimit := rateLimit;
     BackendOptions_ :=
       {| ResponseTimeoutSeconds := 5; MaxRetries := 3;
          MaxResponseSizeBytes := 0; OutOfServiceSeconds := 0;
          MaxDegradedLatencyThreshold := 0; MaxLatencyThreshold := 0;
          MaxErrorRateThreshold := 0 |};
     Backends := backends;
     Authentication := auth;
     BackendGroups := groups;
     RPCMethodMappings := mappings;
     WSMethodWhitelist := [];
     WhitelistErrorMessage := EmptyString;
     SenderRateLimit := senderRateLimit;
     BatchConfig_ := {| MaxSize := 100; batch_ErrorMessage := EmptyString |} |}.

Definition twoBackends : gmap string BackendConfig :=
  <["node1" := exampleBackend "$NODE1_URL"]>
    (<["node2" := exampleBackend "http://node2:8545"]> ∅).

Definition twoGroups : gmap string BackendGroupConfig :=
  <["main" := exampleGroup ["node1"; "node2"] true]>
    (<["archive" := exampleGroup ["node2"] false]> ∅).

Definition twoMappings : gmap string string :=
  <["eth_chainId" := "main"]> (<["eth_getLogs" := "archive"]> ∅).

(** A configuration [Start] accepts: no authentication, no Redis, no sender
    rate limit, no cache. *)
Definition plainConfig : Config :=
  exampleConfig twoBackends twoGroups twoMappings None EmptyString
    noRateLimit noSenderRateLimit noCache 0.

Definition defaultGlobals : Globals :=
  {| ErrOverRateLimit_Message := "over rate limit";
     ErrMethodNotWhitelisted_Message := "rpc method is not whitelisted";
     ErrTooManyBatchRequests_Message := "too many RPC calls in batch request" |}.

(** Variations of [plainConfig]. *)

(** A method mapped to a group that is not defined. *)
Definition danglingMappingConfig : Config :=
  exampleConfig twoBackends twoGroups
    (<["eth_call" := "missing"]> twoMappings) None EmptyString
    noRateLimit noSenderRateLimit noCache 0.

(** A group that lists a backend that is not defined. *)
Definition danglingBackendConfig : Config :=
  exampleConfig twoBackends
    (<["main" := exampleGroup ["node1"; "node3"] true]> twoGroups)
    twoMappings None EmptyString noRateLimit noSenderRateLimit noCache 0.

(** A backend whose URL names an environment variable that is not set. *)
Definition emptyURLConfig : Config :=
  exampleConfig (<["node3" := exampleBackend "$NODE3_URL"]> twoBackends)
    twoGroups twoMappings None EmptyString
    noRateLimit noSenderRateLimit noCache 0.

(** Authentication with the alias, respectively the secret, being "none". *)
Definition aliasNoneConfig : Config :=
  exampleConfig twoBackends twoGroups twoMappings
    (Some {["s3cret" := "none"]}) EmptyString
    noRateLimit noSenderRateLimit noCache 0.

Definition secretNoneConfig : Config :=
  exampleConfig twoBackends twoGroups twoMappings
    (Some {["none" := "admin"]}) EmptyString
    noRateLimit noSenderRateLimit noCache 0.

(** The sender rate limit switched on with a limit of zero. *)
Definition zeroLimitConfig : Config :=
  exampleConfig twoBackends twoGroups twoMappings None EmptyString
    noRateLimit
    {| srl_Enabled := true; Limit := 0; Interval := 5 * time_Second |}
    noCache 0.

(** A custom message for the rate-limit error. *)
Definition messageConfig : Config :=
  exampleConfig twoBackends twoGroups twoMappings None EmptyString
    {| UseRedis := false; EnableBackendRateLimiter := true;
       rl_ErrorMessage := "slow down" |}
    noSenderRateLimit noCache 0.

(** Redis, the Redis-backed rate limiter and the RPC cache switched on. *)
Definition redisConfig : Config :=
  exampleConfig twoBackends twoGroups twoMappings None "redis://cache:6379"
    {| UseRedis := true; EnableBackendRateLimiter := true;
       rl_ErrorMessage := EmptyString |}
    noSenderRateLimit
    {| cache_Enabled := true; BlockSyncRPCURL := "http://sequencer:8545";
       NumBlockConfirmations := 4 |}
    64.

(** An environment with another [ethclient.Dial], another
    [NewRedisClient], or another iteration order. *)
Definition with_Dial (E : Env) (dial : string → Result EthClient) : Env :=
  {| range := range E;
     ReadFromEnvOrConfig := ReadFromEnvOrConfig E;
     NewRedisClient := NewRedisClient E;
     CreateTLSClient := CreateTLSClient E;
     ParseKeyPair := ParseKeyPair E;
     ethclient_Dial := dial;
     NewServer_error := NewServer_error E;
     os_Getenv := os_Getenv E |}.

Definition with_NewRedisClient (E : Env)
    (newClient : string → Result RedisClient) : Env :=
  {| range := range E;
     ReadFromEnvOrConfig := ReadFromEnvOrConfig E;
     NewRedisClient := newClient;
     CreateTLSClient := CreateTLSClient E;
     ParseKeyPair := ParseKeyPair E;
     ethclient_Dial := ethclient_Dial E;
     NewServer_error := NewServer_error E;
     os_Getenv := os_Getenv E |}.

Definition with_range (E : Env)
    (order : Z → ∀ A : Type, gmap string A → list (string * A)) : Env :=
  {| range := order;
     ReadFromEnvOrConfig := ReadFromEnvOrConfig E;
     NewRedisClient := NewRedisClient E;
     CreateTLSClient := CreateTLSClient E;
     ParseKeyPair := ParseKeyPair E;
     ethclient_Dial := ethclient_Dial E;
     NewServer_error := NewServer_error E;
     os_Getenv := os_Getenv E |}.

(** A backend with basic authentication. *)
Definition authBackend : BackendConfig :=
  {| Username := "alice"; Password := "$NODE_PASSWORD";
     RPCURL := "http://node1:8545"; WSURL := EmptyString;
     MaxRPS := 0; MaxWSConns := 0;
     CAFile := EmptyString; ClientCertFile := EmptyString;
     ClientKeyFile := EmptyString;
     StripTrailingXFF := false; SkipPeerCountCheck := true |}.

(** An environment in which no Redis server can be reached. *)
Definition noRedisEnv : Env :=
  with_NewRedisClient exampleEnv
    (λ _, Error (errorString "dial tcp: connection refused")).

(** [plainConfig] with a Redis URL that nothing makes use of. *)
Definition idleRedisConfig : Config :=
  exampleConfig twoBackends twoGroups twoMappings None "redis://cache:6379"
    noRateLimit noSenderRateLimit noCache 0.

(** Two runs of a fallible step agree: both fail, or both succeed with
    related results. *)
Definition agree {A} (R : A → A → Prop) (r1 r2 : Result A) : Prop :=
  match r1, r2 with
  | Ok a, Ok b => R a b
  | Error _, Error _ => True
  | _, _ => False
  end.

(** Two results of [Start] that differ at most in the order of the backend
    names kept for shutdown. *)
Definition same_outcome (st1 st2 : Started) : Prop :=
  st_srv st1 = st_srv st2
  ∧ st_backendGroups st1 = st_backendGroups st2
  ∧ st_goroutines st1 = st_goroutines st2
  ∧ sd_blockNumLVC (st_shutdownFunc st1) = sd_blockNumLVC (st_shutdownFunc st2)
  ∧ sd_gasPriceLVC (st_shutdownFunc st1) = sd_gasPriceLVC (st_shutdownFunc st2)
  ∧ sd_srv (st_shutdownFunc st1) = sd_srv (st_shutdownFunc st2)
  ∧ sd_lim (st_shutdownFunc st1) = sd_lim (st_shutdownFunc st2)
  ∧ sd_backendNames (st_shutdownFunc st1)
    ≡ₚ sd_backendNames (st_shutdownFunc st2).

(** No two authentication secrets resolve to the same string. *)
Definition distinct_paths (E : Env) (config : Config) : Prop :=
  ∀ auth secret1 secret2 rs,
    Authentication config = Some auth →
    is_Some (auth !! secret1) → is_Some (auth !! secret2) →
    ReadFromEnvOrConfig E secret1 = Ok rs →
    ReadFromEnvOrConfig E secret2 = Ok rs →
    secret1 = secret2.

(** The reverse of the order [map_to_list] gives. *)
Definition reverseOrder (site : Z) (A : Type) (m : gmap string A)
  : list (string * A) :=
  reverse (map_to_list m).

(** [plainConfig] with a WS listener on port 8546, served by the group
    [wsGroup]. *)
Definition wsConfigFor (wsGroup : string) : Config :=
  {| WSBackendGroup := wsGroup;
     Server_ :=
       {| RPCHost := "0.0.0.0"; RPCPort := 8080;
          WSHost := "0.0.0.0"; WSPort := 8546;
          MaxBodySizeBytes := 1048576; TimeoutSeconds := 10;
          MaxConcurrentRPCs := 0; MaxUpstreamBatchSize := 10;
          EnableRequestLog := false; MaxRequestBodyLogLen := 0 |};
     Cache_ := Cache_ plainConfig;
     Redis := Redis plainConfig;
     Metrics := Metrics plainConfig;
     RateLimit := RateLimit plainConfig;
     BackendOptions_ := BackendOptions_ plainConfig;
     Backends := Backends plainConfig;
     Authentication := Authentication plainConfig;
     BackendGroups := BackendGroups plainConfig;
     RPCMethodMappings := RPCMethodMappings plainConfig;
     WSMethodWhitelist := ["eth_subscribe"; "eth_unsubscribe"];
     WhitelistErrorMessage := WhitelistErrorMessage plainConfig;
     SenderRateLimit := SenderRateLimit plainConfig;
     BatchConfig_ := BatchConfig_ plainConfig |}.

(** A custom rate-limit message together with a sender rate limit of
    zero. *)
Definition zeroLimitMessageConfig : Config :=
  exampleConfig twoBackends twoGroups twoMappings None EmptyString
    {| UseRedis := false; EnableBackendRateLimiter := true;
       rl_ErrorMessage := "slow down" |}
    {| srl_Enabled := true; Limit := 0; Interval := 5 * time_Second |}
    noCache 0.

(** ** Vocabulary of the statements *)

(** A fallible step returned an error. *)
Definition failed {A} (r : Result A) : Prop := is_Error r = true.

(** [Start] returns a non-nil error, whatever the package-level error
    values held. *)
Definition Start_fails (E : Env) (config : Config) : Prop :=
  ∀ g : Globals, failed (Start E config g).2.

(** What the loop of [createPollers] does to the group stored under
    [bgName]. *)
Definition withPoller (config : Config) (bgName : string) (bg : BackendGroup)
  : BackendGroup :=
  match BackendGroups config !! bgName with
  | Some bgcfg =>
      if ConsensusAware bgcfg
      then setConsensus (NewConsensusPoller bgName (consensusOpts bgcfg)) bg
      else bg
  | None => bg
  end.

(** * Properties *)

(** ** The error monad and its loops *)

Lemma bind_Ok_inv {A B} (m : Result A) (k : A → Result B) (b : B) :
  m ≫= k = Ok b → ∃ a, m = Ok a ∧ k a = Ok b.
Proof. destruct m as [a|e]; simpl; [eauto | discriminate]. Qed.

Lemma failed_bind_l {A B} (m : Result A) (k : A → Result B) :
  failed m → failed (m ≫= k).
Proof. destruct m; simpl; [discriminate | done]. Qed.

Lemma failed_bind_r {A B} (m : Result A) (k : A → Result B) :
  (∀ a, m = Ok a → failed (k a)) → failed (m ≫= k).
Proof. destruct m as [a|e]; simpl; [auto | done]. Qed.

Lemma failed_not_Ok {A} (r : Result A) (a : A) : failed r → r ≠ Ok a.
Proof. intros Hf ->. discriminate Hf. Qed.

Lemma failIf_Ok (cond : bool) (e : error) (u : unit) :
  failIf cond e = Ok u → cond = false.
Proof. by destruct cond. Qed.

Lemma wrapResult_Ok {A} (msg : string) (r : Result A) (a : A) :
  wrapResult msg r = Ok a → r = Ok a.
Proof. by destruct r. Qed.

(** An invariant over the elements already visited carries through a loop
    that runs to its end. *)
Lemma foldM_prefix_ind {A S} (P : list A → S → Prop)
    (f : S → A → Result S) (l : list A) (s0 s : S) :
  P [] s0 →
  (∀ done x s1 s2, done ++ [x] `prefix_of` l →
     P done s1 → f s1 x = Ok s2 → P (done ++ [x]) s2) →
  foldM f l s0 = Ok s → P l s.
Proof.
  intros H0 Hstep.
  assert (Hgen : ∀ rest done s1, done ++ rest = l → P done s1 →
            foldM f rest s1 = Ok s → P l s).
  { induction rest as [|x rest IH]; intros done s1 Hl HP Hrun.
    - simpl in Hrun. rewrite app_nil_r in Hl. by simplify_eq.
    - simpl in Hrun. apply bind_Ok_inv in Hrun as (s2 & Hx & Hrun).
      apply (IH (done ++ [x]) s2); [by rewrite <- app_assoc | | done].
      apply (Hstep done x s1 s2); [| done | done].
      exists rest. by rewrite <- app_assoc. }
  intros Hrun. by apply (Hgen l [] s0).
Qed.

Lemma foldM_ind {A S} (P : S → Prop) (f : S → A → Result S)
    (l : list A) (s0 s : S) :
  P s0 →
  (∀ x s1 s2, x ∈ l → P s1 → f s1 x = Ok s2 → P s2) →
  foldM f l s0 = Ok s → P s.
Proof.
  intros H0 Hstep.
  apply (foldM_prefix_ind (λ _, P)); [done |].
  intros done x s1 s2 [rest ->] HP Hx. apply (Hstep x s1 s2); [| done..].
  set_solver.
Qed.

(** A loop whose body fails on one of the elements, whatever the
    accumulator, fails. *)
Lemma foldM_failed {A S} (f : S → A → Result S) (l : list A) (x : A) (s0 : S) :
  x ∈ l → (∀ s, failed (f s x)) → failed (foldM f l s0).
Proof.
  intros Hx Hf. revert s0.
  induction l as [|y l IH]; intros s0; [by apply elem_of_nil in Hx |].
  simpl. apply elem_of_cons in Hx as [<- | Hx].
  - by apply failed_bind_l.
  - apply failed_bind_r. intros s1 _. by apply IH.
Qed.

(** ** Map iteration *)

Lemma range_elem_of (E : Env) (site : Z) {A} (m : gmap string A)
    (k : string) (v : A) :
  range_sound E → (k, v) ∈ range E site A m ↔ m !! k = Some v.
Proof. intros HE. rewrite (HE site A m). apply elem_of_map_to_list. Qed.

Lemma range_keys (E : Env) (site : Z) {A} (m : gmap string A) (k : string) :
  range_sound E → k ∈ (range E site A m).*1 ↔ is_Some (m !! k).
Proof.
  intros HE. rewrite list_elem_of_fmap. split.
  - intros ([k' v] & -> & Hin). apply (range_elem_of E) in Hin; eauto.
  - intros [v Hv]. exists (k, v). split; [done |]. by apply (range_elem_of E).
Qed.

(** ** Decimal parsing *)

Lemma digit_of_digit (ch : ascii) :
  is_digit ch = true → digit_of (byte_of ch) = Some (byte_of ch - 48).
Proof. unfold is_digit, digit_of. by intros ->. Qed.

Lemma digit_of_other (ch : ascii) (d : Z) :
  is_digit ch = false → digit_of (byte_of ch) = Some d → 10 ≤ d.
Proof.
  unfold is_digit, digit_of. intros ->.
  destruct (_ && _) eqn:Hl; [| done].
  intros [= <-]. apply andb_prop in Hl as [Hl _]. lia.
Qed.

Lemma is_digit_bounds (ch : ascii) :
  is_digit ch = true → 0 ≤ byte_of ch - 48 ≤ 9.
Proof. unfold is_digit. intros [??]%andb_prop. lia. Qed.

Lemma decimal_value_mono (s : string) (acc : Z) :
  all_digits s = true → 0 ≤ acc → acc ≤ decimal_value acc s.
Proof.
  revert acc. induction s as [|ch rest IH]; intros acc Hd Hacc; simpl; [lia |].
  simpl in Hd. apply andb_prop in Hd as [Hch Hrest].
  apply is_digit_bounds in Hch.
  etrans; [| apply IH; [done | lia]]. lia.
Qed.

Lemma uint64_constants :
  maxUint64 / 10 + 1 = 1844674407370955162
  ∧ maxUint64 = 18446744073709551615
  ∧ 2 ^ 64 = 18446744073709551616.
Proof. by vm_compute. Qed.

Lemma ParseUint_loop_digits (s0 s : string) (n : Z) :
  0 ≤ n ≤ maxUint64 → all_digits s = true →
  decimal_value n s ≤ maxUint64 →
  ParseUint_loop 10 (maxUint64 / 10 + 1) maxUint64 s0 s n
  = (decimal_value n s, None).
Proof.
  destruct uint64_constants as (-> & -> & Hpow). revert n.
  induction s as [|ch rest IH]; intros n Hn Hd Hv; [done |].
  cbn [ParseUint_loop]. cbn [all_digits decimal_value] in Hd, Hv.
  apply andb_prop in Hd as [Hch Hrest].
  rewrite (digit_of_digit ch Hch), Hpow.
  pose proof (is_digit_bounds ch Hch) as Hb.
  assert (n * 10 + (byte_of ch - 48) ≤ 18446744073709551615) as Hfit.
  { etrans; [apply (decimal_value_mono rest); [done | lia] | done]. }
  rewrite (Z.mod_small (n * 10)) by lia.
  rewrite (Z.mod_small (n * 10 + _)) by lia.
  repeat case_match; try lia.
  apply IH; [lia | done | done].
Qed.

Lemma ParseUint_loop_rejects (s0 s : string) (n : Z) :
  0 ≤ n ≤ maxUint64 →
  all_digits s = false ∨ maxUint64 < decimal_value n s →
  ∃ v e, ParseUint_loop 10 (maxUint64 / 10 + 1) maxUint64 s0 s n
         = (v, Some e).
Proof.
  destruct uint64_constants as (-> & -> & Hpow). revert n.
  induction s as [|ch rest IH]; intros n Hn Hbad.
  { cbn in Hbad. destruct Hbad; [done | lia]. }
  cbn [ParseUint_loop]. cbn [all_digits decimal_value] in Hbad.
  destruct (is_digit ch) eqn:Hch.
  - rewrite (digit_of_digit ch Hch), Hpow.
    pose proof (is_digit_bounds ch Hch) as Hb.
    case_match; [lia |]. case_match; [eauto |].
    rewrite (Z.mod_small (n * 10)) by lia.
    destruct (decide (n * 10 + (byte_of ch - 48) < 18446744073709551616))
      as [Hfit | Hover].
    + rewrite (Z.mod_small (n * 10 + _)) by lia.
      case_match; [eauto |].
      apply IH; [lia | done].
    + replace ((n * 10 + (byte_of ch - 48)) mod 18446744073709551616)
        with (n * 10 + (byte_of ch - 48) - 18446744073709551616).
      2:{ apply Z.mod_unique with (q := 1); lia. }
      case_match; [eauto |]. lia.
  - destruct (digit_of (byte_of ch)) as [d|] eqn:Hd; [| eauto].
    apply (digit_of_other ch d Hch) in Hd.
    case_match; [eauto | lia].
Qed.

(** [ParseUint(s, 10, 64)] succeeds exactly on the decimal uint64s, and
    then returns the value. *)
Lemma ParseUint_10_64_accepts (s : string) :
  decimal_uint64 s → ParseUint_10_64 s = (decimal_value 0 s, None).
Proof.
  intros (Hne & Hd & Hv). destruct s as [|ch rest]; [done |].
  unfold ParseUint_10_64.
  apply ParseUint_loop_digits; [unfold maxUint64; lia | done | done].
Qed.

Lemma ParseUint_10_64_rejects (s : string) :
  ¬ decimal_uint64 s → ∃ v e, ParseUint_10_64 s = (v, Some e).
Proof.
  intros Hnot. destruct s as [|ch rest]; [simpl; eauto |].
  unfold ParseUint_10_64. apply ParseUint_loop_rejects; [unfold maxUint64; lia |].
  destruct (all_digits (String ch rest)) eqn:Hd; [right | by left].
  destruct (decide (decimal_value 0 (String ch rest) ≤ maxUint64)); [| lia].
  destruct Hnot. by repeat split.
Qed.

(** On a successful read of a decimal uint64 the reader returns its value. *)
Lemma call_Uint64LastValueFn_value (fn : Uint64LastValueFn) (value : string) :
  decimal_uint64 value →
  call_Uint64LastValueFn fn (value, None) = (decimal_value 0 value, None).
Proof.
  intros Hdec. unfold call_Uint64LastValueFn.
  destruct Hdec as (Hne & Hrest). rewrite Hne.
  by rewrite ParseUint_10_64_accepts.
Qed.

(** C10. The reader returned by [makeUint64LastValueFn] returns the number 0
    together with a non-nil error whenever the read of the last-value cache
    failed, the stored value is the empty string, or the stored value is not
    a decimal uint64. *)
Theorem makeUint64LastValueFn_reader_errors (client : EthClient)
    (cache : Cache) (key : string) (updater : lvcUpdateFn)
    (value : string) (err : option error) :
  err ≠ None ∨ value = EmptyString ∨ ¬ decimal_uint64 value →
  ∃ e, call_Uint64LastValueFn
         (makeUint64LastValueFn client cache key updater).2 (value, err)
       = (0, Some e).
Proof.
  intros Hcase. unfold call_Uint64LastValueFn.
  destruct err as [e|]; [eauto |].
  destruct (nonempty value) eqn:Hne; [| eauto].
  destruct Hcase as [? | [-> | Hnot]]; [done | done |].
  destruct (ParseUint_10_64_rejects value Hnot) as (v & e & ->). eauto.
Qed.

Lemma makeUint64LastValueFn_reader_errors_witness :
  ¬ decimal_uint64 "12a" ∧
  ∃ e, call_Uint64LastValueFn
         (makeUint64LastValueFn {| ec_url := "http://sequencer:8545" |}
            newMemoryCache "lvc:block_number" updateBlockNumber).2
         ("12a", None)
       = (0, Some e).
Proof.
  assert (¬ decimal_uint64 "12a") as Hnot.
  { intros (_ & Hd & _). vm_compute in Hd. discriminate Hd. }
  split; [exact Hnot |].
  apply (makeUint64LastValueFn_reader_errors _ _ _ _ "12a" None).
  right. right. exact Hnot.
Defined.

(** ** The steps of [Start] *)

Tactic Notation "bind_inv" hyp(H) "as" simple_intropattern(a) ident(Ha) :=
  apply bind_Ok_inv in H as (a & Ha & H).

Lemma Start_fails_validate (E : Env) (config : Config) :
  failed (Start_validate E config) → Start_fails E config.
Proof.
  intros Hf g. unfold Start.
  destruct (Start_validate E config) as [[rc lim]|e]; [discriminate Hf | done].
Qed.

Lemma Start_fails_build (E : Env) (config : Config) :
  (∀ rc lim, failed (Start_build E config rc lim)) → Start_fails E config.
Proof.
  intros Hf g. unfold Start.
  destruct (Start_validate E config) as [[rc lim]|e]; [apply Hf | done].
Qed.

(** A successful run went through every step, and its result is built from
    what the steps returned. *)
Lemma Start_Ok_inv (E : Env) (config : Config) (g g' : Globals) (st : Started) :
  Start E config g = (g', Ok st) →
  ∃ redisClient backendNames backendsByName backendGroups wsBackendGroup
    resolvedAuth rpcCache blockNumLVC gasPriceLVC,
    let lim := chooseRateLimiter config redisClient in
    let srv :=
      {| sa_backendGroups := backendGroups;
         sa_wsBackendGroup := wsBackendGroup;
         sa_wsMethodWhitelist := list_to_set (WSMethodWhitelist config);
         sa_rpcMethodMappings := RPCMethodMappings config;
         sa_maxBodySize := MaxBodySizeBytes (Server_ config);
         sa_authenticatedPaths := resolvedAuth;
         sa_timeout := secondsToDuration (TimeoutSeconds (Server_ config));
         sa_maxUpstreamBatchSize := MaxUpstreamBatchSize (Server_ config);
         sa_cache := rpcCache;
         sa_rateLimitConfig := RateLimit config;
         sa_senderRateLimitConfig := SenderRateLimit config;
         sa_enableRequestLog := EnableRequestLog (Server_ config);
         sa_maxRequestBodyLogLen := MaxRequestBodyLogLen (Server_ config);
         sa_maxBatchSize := MaxSize (BatchConfig_ config);
         sa_redisClient := redisClient |} in
    checkNonEmpty config = Ok tt
    ∧ checkAuthKeys E config = Ok tt
    ∧ connectRedis E config = Ok redisClient
    ∧ g' = setErrorMessages config g
    ∧ checkSenderRateLimit config = Ok tt
    ∧ configureBackends E config lim (rpcRequestSemaphore config)
      = Ok (backendNames, backendsByName)
    ∧ makeBackendGroups E config backendsByName = Ok backendGroups
    ∧ chooseWSBackendGroup config backendGroups = Ok wsBackendGroup
    ∧ checkMethodMappings E config backendGroups = Ok tt
    ∧ resolveAuth E config = Ok resolvedAuth
    ∧ setupCache E config redisClient = Ok (rpcCache, blockNumLVC, gasPriceLVC)
    ∧ NewServer_error E srv = None
    ∧ st = {| st_srv := srv;
              st_shutdownFunc :=
                {| sd_blockNumLVC := blockNumLVC;
                   sd_gasPriceLVC := gasPriceLVC;
                   sd_srv := srv; sd_lim := lim;
                   sd_backendNames := backendNames |};
              st_backendGroups := createPollers E config backendGroups;
              st_goroutines := launchServers config |}.
Proof.
  unfold Start. intros Hrun.
  destruct (Start_validate E config) as [[redisClient lim]|e] eqn:Hval;
    [| discriminate Hrun].
  injection Hrun as <- Hbuild.
  unfold Start_validate in Hval.
  bind_inv Hval as [] Hnonempty. bind_inv Hval as [] Hauth.
  bind_inv Hval as rc Hredis. injection Hval as -> <-.
  unfold Start_build in Hbuild.
  bind_inv Hbuild as [] Hsender.
  bind_inv Hbuild as [backendNames backendsByName] Hbackends.
  bind_inv Hbuild as backendGroups Hgroups.
  bind_inv Hbuild as wsBackendGroup Hws.
  bind_inv Hbuild as [] Hmappings.
  bind_inv Hbuild as resolvedAuth Hresolved.
  bind_inv Hbuild as [[rpcCache blockNumLVC] gasPriceLVC] Hcache.
  bind_inv Hbuild as srv Hsrv. apply wrapResult_Ok in Hsrv.
  unfold NewServer in Hsrv.
  destruct (NewServer_error E _) eqn:Hcheck; [discriminate Hsrv |].
  injection Hsrv as <-. injection Hbuild as <-.
  exists redisClient, backendNames, backendsByName, backendGroups,
    wsBackendGroup, resolvedAuth, rpcCache, blockNumLVC, gasPriceLVC.
  cbv zeta. repeat split; done.
Qed.

(** *** Backends *)

Lemma configureBackend_Ok (E : Env) (config : Config)
    (lim : BackendRateLimiter) (sem : Semaphore) (name : string)
    (cfg : BackendConfig) (back : Backend) :
  configureBackend E config lim sem name cfg = Ok back →
  b_name back = name ∧ b_rateLimiter back = lim ∧ b_rpcSemaphore back = sem
  ∧ ReadFromEnvOrConfig E (RPCURL cfg) = Ok (b_rpcURL back)
  ∧ nonempty (b_rpcURL back) = true.
Proof.
  unfold configureBackend. intros H.
  bind_inv H as rpcURL Hrpc. bind_inv H as wsURL Hws.
  bind_inv H as [] Hurl. bind_inv H as opts Hopts. bind_inv H as tls Htls.
  injection H as <-. simpl.
  apply failIf_Ok, negb_false_iff in Hurl. done.
Qed.

Lemma configureBackend_empty_url (E : Env) (config : Config)
    (lim : BackendRateLimiter) (sem : Semaphore) (name : string)
    (cfg : BackendConfig) :
  ReadFromEnvOrConfig E (RPCURL cfg) = Ok EmptyString →
  failed (configureBackend E config lim sem name cfg).
Proof.
  intros Hurl. unfold configureBackend. rewrite Hurl. simpl.
  apply failed_bind_r. intros wsURL _. done.
Qed.

Lemma configureBackends_Ok (E : Env) (config : Config)
    (lim : BackendRateLimiter) (sem : Semaphore)
    (backendNames : list string) (backendsByName : gmap string Backend) :
  configureBackends E config lim sem = Ok (backendNames, backendsByName) →
  ∀ name back, backendsByName !! name = Some back →
    b_rateLimiter back = lim ∧ b_rpcSemaphore back = sem
    ∧ name ∈ (range E 98 _ (Backends config)).*1.
Proof.
  unfold configureBackends. intros Hrun.
  refine (foldM_ind
            (λ s : list string * gmap string Backend,
               ∀ name back, s.2 !! name = Some back →
                 b_rateLimiter back = lim ∧ b_rpcSemaphore back = sem
                 ∧ name ∈ (range E 98 _ (Backends config)).*1)
            _ _ _ (backendNames, backendsByName) _ _ Hrun);
    [intros ??; simpl; by rewrite lookup_empty |].
  intros [name cfg] [names byName] s2 Hin IH Hstep name' back'.
  bind_inv Hstep as b Hb. injection Hstep as <-. simpl in *.
  apply configureBackend_Ok in Hb as (_ & Hlim & Hsem & _).
  rewrite lookup_insert. case_decide as Hname.
  - intros [= <-]. subst name'. repeat split; [done..|].
    apply list_elem_of_fmap. by exists (name, cfg).
  - apply IH.
Qed.

(** *** Backend groups *)

Lemma groupBackends_Ok (backendsByName : gmap string Backend)
    (names : list string) (backends : list Backend) :
  groupBackends backendsByName names = Ok backends →
  ∀ back, back ∈ backends → ∃ name, backendsByName !! name = Some back.
Proof.
  unfold groupBackends.
  apply (foldM_ind
           (λ bs : list Backend,
              ∀ back, back ∈ bs → ∃ name, backendsByName !! name = Some back)).
  - intros back Hin. by apply elem_of_nil in Hin.
  - intros bName bs bs' _ IH Hstep back Hin.
    destruct (backendsByName !! bName) as [b|] eqn:Hb; [| discriminate Hstep].
    injection Hstep as <-.
    apply elem_of_app in Hin as [Hin | Hin]; [by apply IH |].
    apply list_elem_of_singleton in Hin as ->. eauto.
Qed.

Lemma groupBackends_undefined (backendsByName : gmap string Backend)
    (names : list string) (bName : string) :
  bName ∈ names → backendsByName !! bName = None →
  failed (groupBackends backendsByName names).
Proof.
  intros Hin Hnone. unfold groupBackends.
  apply (foldM_failed _ _ bName); [done |].
  intros bs. by rewrite Hnone.
Qed.

Lemma makeBackendGroups_Ok (E : Env) (config : Config)
    (backendsByName : gmap string Backend)
    (backendGroups : gmap string BackendGroup) :
  makeBackendGroups E config backendsByName = Ok backendGroups →
  (∀ bgName bg, backendGroups !! bgName = Some bg →
     Name bg = bgName ∧ Consensus bg = None
     ∧ ∀ back, back ∈ bg_backends bg →
         ∃ name, backendsByName !! name = Some back)
  ∧ (∀ bgName, is_Some (backendGroups !! bgName) ↔
       bgName ∈ (range E 169 _ (BackendGroups config)).*1).
Proof.
  unfold makeBackendGroups. intros Hrun.
  refine (foldM_prefix_ind
            (λ done (s : gmap string BackendGroup),
               (∀ bgName bg, s !! bgName = Some bg →
                  Name bg = bgName ∧ Consensus bg = None
                  ∧ ∀ back, back ∈ bg_backends bg →
                      ∃ name, backendsByName !! name = Some back)
               ∧ (∀ bgName, is_Some (s !! bgName) ↔ bgName ∈ done.*1))
            _ _ _ _ _ _ Hrun).
  - split; [intros ??; by rewrite lookup_empty |].
    intros bgName. rewrite lookup_empty. split; [by intros [? ?] |].
    intros Hin. by apply elem_of_nil in Hin.
  - intros done [bgName bgcfg] s1 s2 _ [IH1 IH2] Hstep.
    bind_inv Hstep as backends Hbs. injection Hstep as <-.
    split.
    + intros bgName' bg. rewrite lookup_insert. case_decide as Hname.
      * intros [= <-]. simpl. repeat split; [done |].
        by apply groupBackends_Ok with (names := bg_Backends bgcfg).
      * apply IH1.
    + intros bgName'. rewrite fmap_app, elem_of_app. simpl.
      rewrite list_elem_of_singleton, lookup_insert. case_decide as Hname.
      * subst. split; [by right | eauto].
      * rewrite IH2. split; [by left | intros [? | ?]; [done | congruence]].
Qed.

(** *** Consensus pollers *)

Lemma withPoller_idemp (config : Config) (bgName : string) (bg : BackendGroup) :
  withPoller config bgName (withPoller config bgName bg)
  = withPoller config bgName bg.
Proof.
  unfold withPoller. destruct (BackendGroups config !! bgName) as [bgcfg|]; [| done].
  by destruct (ConsensusAware bgcfg).
Qed.

Lemma withPoller_backends (config : Config) (bgName : string) (bg : BackendGroup) :
  bg_backends (withPoller config bgName bg) = bg_backends bg.
Proof.
  unfold withPoller. destruct (BackendGroups config !! bgName) as [bgcfg|]; [| done].
  by destruct (ConsensusAware bgcfg).
Qed.

Lemma createPoller_lookup (config : Config) (store : gmap string BackendGroup)
    (bgName : string) (bg0 : BackendGroup) (name : string) :
  createPoller config store (bgName, bg0) !! name
  = if decide (bgName = name) then withPoller config name <$> store !! name
    else store !! name.
Proof.
  unfold createPoller, withPoller. case_decide as Hname.
  - subst name. destruct (BackendGroups config !! bgName) as [bgcfg|].
    + destruct (ConsensusAware bgcfg); [by rewrite lookup_alter_eq |].
      by destruct (store !! bgName).
    + by destruct (store !! bgName).
  - destruct (BackendGroups config !! bgName) as [bgcfg|]; [| done].
    destruct (ConsensusAware bgcfg); [by rewrite lookup_alter_ne | done].
Qed.

Lemma createPoller_fold_lookup (config : Config)
    (l : list (string * BackendGroup)) (store : gmap string BackendGroup)
    (name : string) :
  fold_left (createPoller config) l store !! name
  = if decide (name ∈ l.*1) then withPoller config name <$> store !! name
    else store !! name.
Proof.
  revert store. induction l as [|[bgName bg0] l IH]; intros store.
  { cbn [fold_left]. case_decide as Hin; [| done].
    by apply elem_of_nil in Hin. }
  cbn [fold_left]. rewrite IH, createPoller_lookup.
  change (((bgName, bg0) :: l).*1) with (bgName :: l.*1).
  destruct (decide (bgName = name)) as [-> | Hname].
  - rewrite (decide_True (P := name ∈ name :: l.*1)) by apply list_elem_of_here.
    case_decide; [| done].
    destruct (store !! name) as [bg|]; [| done].
    simpl. by rewrite withPoller_idemp.
  - case_decide as Hin.
    + by rewrite decide_True by by apply list_elem_of_further.
    + rewrite decide_False; [done |].
      intros [? | ?]%elem_of_cons; congruence.
Qed.

(** After the loop every group of the store has gone through
    [withPoller]; no group is added or removed. *)
Lemma createPollers_lookup (E : Env) (config : Config)
    (backendGroups : gmap string BackendGroup) (name : string) :
  range_sound E →
  createPollers E config backendGroups !! name
  = withPoller config name <$> backendGroups !! name.
Proof.
  intros HE. unfold createPollers. rewrite createPoller_fold_lookup.
  case_decide as Hin; [done |].
  rewrite (range_keys E) in Hin by done.
  destruct (backendGroups !! name); [| done]. destruct Hin. eauto.
Qed.

(** Without any assumption on the iteration order: a group found in the
    store after the loop is the original group, possibly given a poller,
    with the same backends. *)
Lemma createPollers_backends (E : Env) (config : Config)
    (backendGroups : gmap string BackendGroup) (name : string)
    (bg : BackendGroup) :
  createPollers E config backendGroups !! name = Some bg →
  ∃ bg0, backendGroups !! name = Some bg0 ∧ bg_backends bg = bg_backends bg0.
Proof.
  unfold createPollers. rewrite createPoller_fold_lookup.
  case_decide; [| eauto].
  destruct (backendGroups !! name) as [bg0|]; [| done].
  intros [= <-]. exists bg0. by rewrite withPoller_backends.
Qed.

(** *** The remaining checks *)

Lemma checkNonEmpty_Ok (config : Config) :
  checkNonEmpty config = Ok tt ↔
  Backends config ≠ ∅ ∧ BackendGroups config ≠ ∅
  ∧ RPCMethodMappings config ≠ ∅.
Proof.
  unfold checkNonEmpty.
  rewrite <- !map_size_non_empty_iff.
  destruct (size (Backends config)), (size (BackendGroups config)),
    (size (RPCMethodMappings config)); simpl;
    (split; [try done; intros _; repeat split; lia | try done; lia]).
Qed.

Lemma checkAuthKeys_Ok (E : Env) (config : Config) :
  range_sound E →
  checkAuthKeys E config = Ok tt ↔
  ∀ auth, Authentication config = Some auth → auth !! "none" = None.
Proof.
  intros HE. unfold checkAuthKeys.
  destruct (Authentication config) as [auth|]; [| naive_solver].
  split.
  - intros Hrun auth' [= <-].
    destruct (auth !! "none") as [alias|] eqn:Hnone; [| done].
    apply (range_elem_of E 32) in Hnone; [| done].
    eapply failed_not_Ok in Hrun; [done |].
    apply (foldM_failed _ _ ("none", alias)); [done |]. by intros [].
  - intros Hnone. specialize (Hnone auth eq_refl).
    assert (∀ x, x ∈ range E 32 _ auth → x.1 ≠ "none") as Hkeys.
    { intros [k v] Hin. simpl. intros ->.
      apply (range_elem_of E) in Hin; [| done]. congruence. }
    induction (range E 32 _ auth) as [|[k v] l IH]; [done |].
    simpl. destruct (String.eqb_spec k "none") as [-> | Hk].
    + by destruct (Hkeys ("none", v)); [left |].
    + simpl. apply IH. intros x Hx. apply Hkeys. by right.
Qed.

Lemma checkSenderRateLimit_Ok (config : Config) :
  checkSenderRateLimit config = Ok tt ↔
  srl_Enabled (SenderRateLimit config) = false
  ∨ (0 < Limit (SenderRateLimit config)
     ∧ time_Second ≤ Interval (SenderRateLimit config)).
Proof.
  unfold checkSenderRateLimit.
  destruct (srl_Enabled (SenderRateLimit config)); [| by split; [left |]].
  destruct (Z.leb_spec (Limit (SenderRateLimit config)) 0); simpl.
  { split; [done | intros [? | [??]]; [done | lia]]. }
  destruct (Z.ltb_spec (Interval (SenderRateLimit config)) time_Second); simpl.
  { split; [done | intros [? | [??]]; [done | lia]]. }
  split; [intros _; right; lia | done].
Qed.

Lemma connectRedis_Ok (E : Env) (config : Config)
    (redisClient : option RedisClient) :
  connectRedis E config = Ok redisClient →
  (URL (Redis config) = EmptyString ∧ redisClient = None
   ∧ UseRedis (RateLimit config) = false)
  ∨ (URL (Redis config) ≠ EmptyString
     ∧ ∃ rURL client, ReadFromEnvOrConfig E (URL (Redis config)) = Ok rURL
         ∧ NewRedisClient E rURL = Ok client ∧ redisClient = Some client).
Proof.
  unfold connectRedis. intros Hrun.
  bind_inv Hrun as rc Hrc. bind_inv Hrun as [] Huse. injection Hrun as ->.
  apply failIf_Ok in Huse.
  destruct (URL (Redis config)) eqn:Hurl; simpl in Hrc.
  - injection Hrc as <-. left. simpl in Huse. done.
  - right. split; [done |].
    bind_inv Hrc as rURL HrURL. bind_inv Hrc as client Hclient.
    injection Hrc as <-. eauto.
Qed.

Lemma checkMethodMappings_undefined (E : Env) (config : Config)
    (backendGroups : gmap string BackendGroup) (method bg : string) :
  range_sound E →
  RPCMethodMappings config !! method = Some bg →
  backendGroups !! bg = None →
  failed (checkMethodMappings E config backendGroups).
Proof.
  intros HE Hmap Hnone. unfold checkMethodMappings.
  apply (foldM_failed _ _ (method, bg)); [by apply (range_elem_of E) |].
  intros []. by rewrite Hnone.
Qed.

(** ** Start-up validation *)

Tactic Notation "next_step" "as" simple_intropattern(a) ident(H) :=
  cbv zeta; apply failed_bind_r; intros a H.

(** [Start] on the example configurations. *)
Example Start_plainConfig_succeeds :
  is_Ok (Start exampleEnv plainConfig defaultGlobals).2 = true.
Proof. reflexivity. Qed.

Example Start_danglingBackend :
  (Start exampleEnv danglingBackendConfig defaultGlobals).2
  = Error (errorString "backend node3 is not defined").
Proof. reflexivity. Qed.

Example Start_danglingMapping :
  (Start exampleEnv danglingMappingConfig defaultGlobals).2
  = Error (errorString "undefined backend group missing").
Proof. reflexivity. Qed.

Example Start_emptyURL :
  (Start exampleEnv emptyURLConfig defaultGlobals).2
  = Error (errorString "must define an RPC URL for backend node3").
Proof. reflexivity. Qed.

(** C1. [Start] returns an error when the configuration defines no
    backends, no backend groups or no RPC method mappings, when a backend
    group lists a backend that is not defined, when an RPC method is mapped
    to a group that is not defined, and when the RPC URL of a backend
    resolves to the empty string. *)
Theorem Start_fails_on_invalid_config (E : Env) (config : Config) :
  range_sound E →
  Backends config = ∅
  ∨ BackendGroups config = ∅
  ∨ RPCMethodMappings config = ∅
  ∨ (∃ bgName bgcfg bName,
       BackendGroups config !! bgName = Some bgcfg
       ∧ bName ∈ bg_Backends bgcfg ∧ Backends config !! bName = None)
  ∨ (∃ method bgName,
       RPCMethodMappings config !! method = Some bgName
       ∧ BackendGroups config !! bgName = None)
  ∨ (∃ name cfg,
       Backends config !! name = Some cfg
       ∧ ReadFromEnvOrConfig E (RPCURL cfg) = Ok EmptyString) →
  Start_fails E config.
Proof.
  intros HE [Hb | [Hg | [Hm | [Hgb | [Hmg | Hurl]]]]].
  - apply Start_fails_validate. unfold Start_validate.
    apply failed_bind_l. unfold checkNonEmpty. by rewrite Hb, map_size_empty.
  - apply Start_fails_validate. unfold Start_validate.
    apply failed_bind_l. unfold checkNonEmpty. rewrite Hg, map_size_empty.
    by destruct (size (Backends config)).
  - apply Start_fails_validate. unfold Start_validate.
    apply failed_bind_l. unfold checkNonEmpty. rewrite Hm, map_size_empty.
    by destruct (size (Backends config)), (size (BackendGroups config)).
  - destruct Hgb as (bgName & bgcfg & bName & Hgroup & Hin & Hundef).
    apply Start_fails_build. intros rc lim. unfold Start_build.
    next_step as [] Hsender. next_step as [backendNames backendsByName] Hbs.
    apply failed_bind_l. unfold makeBackendGroups.
    apply (foldM_failed _ _ (bgName, bgcfg)); [by apply (range_elem_of E) |].
    intros store. apply failed_bind_l.
    apply (groupBackends_undefined _ _ bName); [done |].
    destruct (backendsByName !! bName) as [back|] eqn:Hback; [| done].
    eapply configureBackends_Ok in Hback as (_ & _ & Hkey); [| done].
    apply (range_keys E) in Hkey as [cfg Hcfg]; [| done]. congruence.
  - destruct Hmg as (method & bgName & Hmap & Hundef).
    apply Start_fails_build. intros rc lim. unfold Start_build.
    next_step as [] Hsender. next_step as [backendNames backendsByName] Hbs.
    next_step as backendGroups Hgroups. next_step as wsBackendGroup Hws.
    apply failed_bind_l.
    apply (checkMethodMappings_undefined E config _ method bgName); [done..|].
    apply makeBackendGroups_Ok in Hgroups as [_ Hdom].
    destruct (backendGroups !! bgName) as [bg|] eqn:Hbg; [| done].
    assert (is_Some (backendGroups !! bgName)) as Hsome by eauto.
    apply Hdom, (range_keys E) in Hsome as [cfg Hcfg]; [| done]. congruence.
  - destruct Hurl as (name & cfg & Hcfg & Hempty).
    apply Start_fails_build. intros rc lim. unfold Start_build.
    next_step as [] Hsender. cbv zeta. apply failed_bind_l.
    unfold configureBackends.
    apply (foldM_failed _ _ (name, cfg)); [by apply (range_elem_of E) |].
    intros [names byName]. apply failed_bind_l.
    by apply configureBackend_empty_url.
Qed.

Lemma Start_fails_on_invalid_config_witness :
  RPCMethodMappings danglingMappingConfig !! "eth_call" = Some "missing"
  ∧ BackendGroups danglingMappingConfig !! "missing" = None
  ∧ Start_fails exampleEnv danglingMappingConfig.
Proof.
  split; [reflexivity |]. split; [reflexivity |].
  apply (Start_fails_on_invalid_config exampleEnv danglingMappingConfig).
  - intros site A m. reflexivity.
  - do 4 right. left. exists "eth_call", "missing". split; reflexivity.
Defined.

(** ** Authentication keys *)

(** The loop of lines 32-36 ranges over the keys of the map, which are the
    secrets: the secret "none" is refused and no alias is. *)
Example Start_secret_none_refused :
  (Start exampleEnv secretNoneConfig defaultGlobals).2
  = Error (errorString "cannot use none as an auth key").
Proof. reflexivity. Qed.

(** C2, as the specification states it, does not hold: an entry whose alias
    is "none" does not make [Start] fail. *)
Lemma Start_accepts_alias_none :
  ¬ (∀ (E : Env) (config : Config) (auth : gmap string string)
       (secret : string),
       range_sound E →
       Authentication config = Some auth →
       auth !! secret = Some "none" →
       Start_fails E config).
Proof.
  intros Hclaim.
  specialize (Hclaim exampleEnv aliasNoneConfig {["s3cret" := "none"]}
                "s3cret" (λ _ _ _, reflexivity _) eq_refl eq_refl
                defaultGlobals).
  vm_compute in Hclaim. discriminate Hclaim.
Qed.

(** C2, amended. [Start] fails when a secret (a key of the authentication
    map) is "none"; the check looks at no alias: it passes exactly when
    "none" is not among the keys, whatever the aliases are. *)
Theorem Start_fails_on_auth_key_none (E : Env) (config : Config) :
  range_sound E →
  (∀ auth alias,
     Authentication config = Some auth → auth !! "none" = Some alias →
     Start_fails E config)
  ∧ (checkAuthKeys E config = Ok tt ↔
     ∀ auth, Authentication config = Some auth → auth !! "none" = None).
Proof.
  intros HE. split; [| by apply checkAuthKeys_Ok].
  intros auth alias Hauth Hnone.
  apply Start_fails_validate. unfold Start_validate.
  apply failed_bind_r. intros [] _. apply failed_bind_l.
  destruct (checkAuthKeys E config) as [[]|e] eqn:Hcheck; [| done].
  pose proof (proj1 (checkAuthKeys_Ok E config HE) Hcheck auth Hauth).
  congruence.
Qed.

Lemma Start_fails_on_auth_key_none_witness :
  Start_fails exampleEnv secretNoneConfig
  ∧ checkAuthKeys exampleEnv aliasNoneConfig = Ok tt.
Proof.
  split.
  - apply (Start_fails_on_auth_key_none exampleEnv secretNoneConfig
             (λ _ _ _, reflexivity _))
      with (auth := {["none" := "admin"]}) (alias := "admin"); reflexivity.
  - apply (Start_fails_on_auth_key_none exampleEnv aliasNoneConfig
             (λ _ _ _, reflexivity _)).
    intros auth [= <-]. reflexivity.
Defined.

(** ** Sender rate limit *)

(** C3, as the specification states it, does not hold: with the sender rate
    limit switched off, a limit of zero and an interval of zero are
    accepted. *)
Lemma Start_accepts_disabled_sender_rate_limit :
  ¬ (∀ (E : Env) (config : Config),
       range_sound E →
       Limit (SenderRateLimit config) ≤ 0
       ∨ Interval (SenderRateLimit config) < time_Second →
       Start_fails E config).
Proof.
  intros Hclaim.
  specialize (Hclaim exampleEnv plainConfig (λ _ _ _, reflexivity _)).
  assert (Hfails : Start_fails exampleEnv plainConfig).
  { apply Hclaim. left. vm_compute. discriminate. }
  specialize (Hfails defaultGlobals).
  vm_compute in Hfails. discriminate Hfails.
Qed.

(** C3, amended. When the sender rate limit is enabled, [Start] fails if
    its limit is at most 0 or its interval is below one second; the check
    passes exactly when the sender rate limit is disabled or both settings
    are in range. *)
Theorem Start_fails_on_sender_rate_limit (E : Env) (config : Config) :
  (srl_Enabled (SenderRateLimit config) = true →
   Limit (SenderRateLimit config) ≤ 0
   ∨ Interval (SenderRateLimit config) < time_Second →
   Start_fails E config)
  ∧ (checkSenderRateLimit config = Ok tt ↔
     srl_Enabled (SenderRateLimit config) = false
     ∨ (0 < Limit (SenderRateLimit config)
        ∧ time_Second ≤ Interval (SenderRateLimit config))).
Proof.
  split; [| apply checkSenderRateLimit_Ok].
  intros Hon Hbad. apply Start_fails_build. intros rc lim.
  unfold Start_build. apply failed_bind_l.
  destruct (checkSenderRateLimit config) as [[]|e] eqn:Hcheck; [| done].
  apply checkSenderRateLimit_Ok in Hcheck as [Hoff | [??]]; [congruence | lia].
Qed.

Lemma Start_fails_on_sender_rate_limit_witness :
  Start_fails exampleEnv zeroLimitConfig.
Proof.
  apply (Start_fails_on_sender_rate_limit exampleEnv zeroLimitConfig).
  - reflexivity.
  - left. vm_compute. discriminate.
Defined.

(** ** Error messages *)

(** C4, as the specification states it, does not hold: [Start] assigns the
    configured message to the package-level error value. *)
Lemma Start_modifies_global_errors :
  ¬ (∀ (E : Env) (config : Config) (g : Globals),
       (Start E config g).1 = g).
Proof.
  intros Hclaim.
  specialize (Hclaim exampleEnv messageConfig defaultGlobals).
  vm_compute in Hclaim. discriminate Hclaim.
Qed.

(** C4, amended. The messages for the rate-limit, whitelist and
    batch-too-large errors are taken from the configuration when set, by
    assignment to the package-level error values: after a successful
    [Start] each of the three messages is the configured one when that is
    not empty and is unchanged otherwise.  A failing [Start] leaves the
    three messages either untouched or assigned in the same way. *)
Theorem Start_assigns_error_messages (E : Env) (config : Config)
    (g g' : Globals) (r : Result Started) :
  Start E config g = (g', r) →
  (g' = g ∨ g' = setErrorMessages config g)
  ∧ (is_Ok r = true →
     ErrOverRateLimit_Message g'
     = (if nonempty (rl_ErrorMessage (RateLimit config))
        then rl_ErrorMessage (RateLimit config)
        else ErrOverRateLimit_Message g)
     ∧ ErrMethodNotWhitelisted_Message g'
       = (if nonempty (WhitelistErrorMessage config)
          then WhitelistErrorMessage config
          else ErrMethodNotWhitelisted_Message g)
     ∧ ErrTooManyBatchRequests_Message g'
       = (if nonempty (batch_ErrorMessage (BatchConfig_ config))
          then batch_ErrorMessage (BatchConfig_ config)
          else ErrTooManyBatchRequests_Message g)).
Proof.
  unfold Start.
  destruct (Start_validate E config) as [[rc lim]|e]; intros [= <- <-].
  - split; [by right | done].
  - split; [by left | done].
Qed.

Lemma Start_assigns_error_messages_witness :
  ErrOverRateLimit_Message (Start exampleEnv messageConfig defaultGlobals).1
  = "slow down"
  ∧ ErrMethodNotWhitelisted_Message
      (Start exampleEnv messageConfig defaultGlobals).1
    = "rpc method is not whitelisted".
Proof.
  destruct (Start_assigns_error_messages exampleEnv messageConfig
              defaultGlobals
              (Start exampleEnv messageConfig defaultGlobals).1
              (Start exampleEnv messageConfig defaultGlobals).2)
    as [_ Hmsg]; [reflexivity |].
  destruct (Hmsg eq_refl) as (Hrate & Hwl & _).
  split; [exact Hrate | exact Hwl].
Defined.

(** ** Rate limiter, semaphore, cache *)

(** Every backend reachable from the groups [Start] returns was configured
    with the limiter and the semaphore [Start] created. *)
Lemma Start_backends (E : Env) (config : Config) (g g' : Globals)
    (st : Started) (bgName : string) (bg : BackendGroup) (back : Backend) :
  Start E config g = (g', Ok st) →
  st_backendGroups st !! bgName = Some bg → back ∈ bg_backends bg →
  b_rateLimiter back = sd_lim (st_shutdownFunc st)
  ∧ b_rpcSemaphore back = rpcRequestSemaphore config.
Proof.
  intros Hrun Hbg Hback.
  apply Start_Ok_inv in Hrun
    as (redisClient & backendNames & backendsByName & backendGroups & ws
        & auth & rpcCache & bLVC & gLVC & Hrun).
  cbv zeta in Hrun.
  destruct Hrun as (_ & _ & _ & _ & _ & Hbs & Hgroups & _ & _ & _ & _ & _ & ->).
  simpl in *.
  apply createPollers_backends in Hbg as (bg0 & Hbg0 & Heq).
  rewrite Heq in Hback.
  apply makeBackendGroups_Ok in Hgroups as [Hgroups _].
  destruct (Hgroups bgName bg0 Hbg0) as (_ & _ & Hfrom).
  destruct (Hfrom back Hback) as [name Hname].
  by destruct (configureBackends_Ok _ _ _ _ _ _ Hbs name back Hname)
    as (? & ? & _).
Qed.

(** C8. When [max_concurrent_rpcs] is 0 the semaphore [Start] creates has
    capacity [math.MaxInt64], and it is this semaphore every backend is
    given. *)
Theorem Start_semaphore_unlimited (E : Env) (config : Config)
    (g g' : Globals) (st : Started) :
  MaxConcurrentRPCs (Server_ config) = 0 →
  Start E config g = (g', Ok st) →
  sem_size (rpcRequestSemaphore config) = 9223372036854775807
  ∧ ∀ bgName bg back,
      st_backendGroups st !! bgName = Some bg → back ∈ bg_backends bg →
      b_rpcSemaphore back = NewWeighted 9223372036854775807.
Proof.
  intros Hzero Hrun.
  assert (rpcRequestSemaphore config = NewWeighted 9223372036854775807) as Hsem.
  { unfold rpcRequestSemaphore. by rewrite Hzero. }
  split; [by rewrite Hsem |].
  intros bgName bg back Hbg Hback. rewrite <- Hsem.
  by destruct (Start_backends E config g g' st bgName bg back Hrun Hbg Hback).
Qed.

Lemma Start_semaphore_unlimited_witness :
  ∃ g' st,
    Start exampleEnv plainConfig defaultGlobals = (g', Ok st)
    ∧ sem_size (rpcRequestSemaphore plainConfig) = 9223372036854775807
    ∧ ∀ bgName bg back,
        st_backendGroups st !! bgName = Some bg → back ∈ bg_backends bg →
        b_rpcSemaphore back = NewWeighted 9223372036854775807.
Proof.
  eexists _, _. split; [reflexivity |].
  eapply (Start_semaphore_unlimited exampleEnv plainConfig defaultGlobals);
    reflexivity.
Defined.

(** C9. [Start] fails when [rate_limit.use_redis] is set and no Redis URL
    is configured.  When it succeeds, the backend rate limiter, which is
    the one every backend is given, is the no-op limiter if
    [enable_backend_rate_limiter] is off, the local limiter if it is on and
    no Redis URL is configured, and the Redis-backed limiter over the
    client of the configured URL otherwise. *)
Theorem Start_rate_limiter (E : Env) (config : Config) :
  (UseRedis (RateLimit config) = true →
   URL (Redis config) = EmptyString → Start_fails E config)
  ∧ ∀ g g' st, Start E config g = (g', Ok st) →
      let lim := sd_lim (st_shutdownFunc st) in
      (EnableBackendRateLimiter (RateLimit config) = false →
       lim = noopBackendRateLimiter)
      ∧ (EnableBackendRateLimiter (RateLimit config) = true →
         URL (Redis config) = EmptyString →
         lim = NewLocalBackendRateLimiter)
      ∧ (EnableBackendRateLimiter (RateLimit config) = true →
         URL (Redis config) ≠ EmptyString →
         ∃ rURL client,
           ReadFromEnvOrConfig E (URL (Redis config)) = Ok rURL
           ∧ NewRedisClient E rURL = Ok client
           ∧ lim = NewRedisRateLimiter client)
      ∧ ∀ bgName bg back,
          st_backendGroups st !! bgName = Some bg → back ∈ bg_backends bg →
          b_rateLimiter back = lim.
Proof.
  split.
  - intros Huse Hurl. apply Start_fails_validate. unfold Start_validate.
    apply failed_bind_r. intros [] _. apply failed_bind_r. intros [] _.
    apply failed_bind_l. unfold connectRedis. rewrite Hurl, Huse. done.
  - intros g g' st Hrun lim. subst lim.
    repeat split.
    4:{ intros bgName bg back Hbg Hback.
        by destruct (Start_backends E config g g' st bgName bg back
                       Hrun Hbg Hback). }
    all: apply Start_Ok_inv in Hrun
      as (redisClient & backendNames & backendsByName & backendGroups & ws
          & auth & rpcCache & bLVC & gLVC & Hrun);
      cbv zeta in Hrun;
      destruct Hrun as (_ & _ & Hredis & _ & _ & _ & _ & _ & _ & _ & _ & _ & ->);
      simpl; unfold chooseRateLimiter;
      apply connectRedis_Ok in Hredis
        as [(Hurl & -> & _) | (Hurl & rURL & client & HrURL & Hclient & ->)].
    + by intros ->.
    + by intros ->.
    + by intros ->.
    + done.
    + done.
    + intros -> _. eauto.
Qed.

Lemma Start_rate_limiter_witness :
  ∃ g' st client,
    Start exampleEnv redisConfig defaultGlobals = (g', Ok st)
    ∧ NewRedisClient exampleEnv "redis://cache:6379" = Ok client
    ∧ sd_lim (st_shutdownFunc st) = NewRedisRateLimiter client.
Proof.
  eexists _, _, _. split; [reflexivity |]. split; [reflexivity |].
  destruct (Start_rate_limiter exampleEnv redisConfig) as [_ Hlim].
  destruct (Hlim defaultGlobals _ _ eq_refl) as (_ & _ & Hredis & _).
  destruct Hredis as (rURL & client & HrURL & Hclient & ->);
    [reflexivity | discriminate |].
  injection HrURL as <-. injection Hclient as <-. reflexivity.
Defined.

(** C5. With caching enabled, [Start] fails when no block-sync RPC URL is
    configured.  When it succeeds, the RPC cache handed to the server is
    built over the compression layer wrapped around the Redis-backed store
    if a Redis client is configured and around the in-process map if not. *)
Theorem Start_rpc_cache (E : Env) (config : Config) :
  cache_Enabled (Cache_ config) = true →
  (BlockSyncRPCURL (Cache_ config) = EmptyString → Start_fails E config)
  ∧ ∀ g g' st, Start E config g = (g', Ok st) →
      ∃ rpcCache,
        sa_cache (st_srv st) = Some rpcCache
        ∧ ((URL (Redis config) = EmptyString
            ∧ sa_redisClient (st_srv st) = None
            ∧ rc_cache rpcCache = newCacheWithCompression newMemoryCache)
           ∨ (URL (Redis config) ≠ EmptyString
              ∧ ∃ rURL client,
                  ReadFromEnvOrConfig E (URL (Redis config)) = Ok rURL
                  ∧ NewRedisClient E rURL = Ok client
                  ∧ sa_redisClient (st_srv st) = Some client
                  ∧ rc_cache rpcCache
                    = newCacheWithCompression (newRedisCache client))).
Proof.
  intros Hon. split.
  - intros Hurl. apply Start_fails_build. intros rc lim. unfold Start_build.
    next_step as [] Hsender. next_step as [backendNames backendsByName] Hbs.
    next_step as backendGroups Hgroups. next_step as wsBackendGroup Hws.
    next_step as [] Hmappings. next_step as resolvedAuth Hauth.
    apply failed_bind_l. unfold setupCache. rewrite Hon, Hurl. done.
  - intros g g' st Hrun.
    apply Start_Ok_inv in Hrun
      as (redisClient & backendNames & backendsByName & backendGroups & ws
          & auth & rpcCache & bLVC & gLVC & Hrun).
    cbv zeta in Hrun.
    destruct Hrun
      as (_ & _ & Hredis & _ & _ & _ & _ & _ & _ & _ & Hcache & _ & ->).
    simpl. unfold setupCache in Hcache. rewrite Hon in Hcache.
    bind_inv Hcache as [] Hurl. bind_inv Hcache as blockSyncRPCURL Hsync.
    bind_inv Hcache as ethClient Hdial. simpl in Hcache.
    injection Hcache as <- _ _. eexists. split; [done |]. simpl.
    apply connectRedis_Ok in Hredis
      as [(Hnone & -> & _) | (Hsome & rURL & client & HrURL & Hclient & ->)].
    + by left.
    + right. split; [done |]. by exists rURL, client.
Qed.

Lemma Start_rpc_cache_witness :
  ∃ g' st rpcCache,
    Start exampleEnv redisConfig defaultGlobals = (g', Ok st)
    ∧ sa_cache (st_srv st) = Some rpcCache
    ∧ rc_cache rpcCache
      = newCacheWithCompression
          (newRedisCache {| redis_url := "redis://cache:6379" |}).
Proof.
  eexists _, _.
  destruct (Start_rpc_cache exampleEnv redisConfig eq_refl) as [_ Hcache].
  destruct (Hcache defaultGlobals _ _ eq_refl)
    as (rpcCache & Hsrv & [(Hnone & _) | (_ & rURL & client & HrURL & Hclient
                                           & _ & Hrc)]);
    [discriminate Hnone |].
  exists rpcCache. split; [reflexivity |]. split; [exact Hsrv |].
  injection HrURL as <-. injection Hclient as <-. exact Hrc.
Defined.

(** ** Consensus pollers *)

Lemma elem_of_appendIf {A} (cond : bool) (o x : A) (opts : list A) :
  x ∈ appendIf cond o opts ↔ x ∈ opts ∨ (cond = true ∧ x = o).
Proof.
  unfold appendIf. destruct cond.
  - rewrite elem_of_app, list_elem_of_singleton.
    split; [intros [? | ?]; auto | intros [? | [_ ?]]; auto].
  - split; [auto | intros [? | [? _]]; [done | discriminate]].
Qed.

(** The options of a poller are the configured ones: each is passed when
    its setting is positive (the async handler when it is "noop"), with the
    configured value. *)
Lemma consensusOpts_spec (bgcfg : BackendGroupConfig) :
  (∀ d, WithBanPeriod d ∈ consensusOpts bgcfg ↔
        d = ConsensusBanPeriod bgcfg ∧ 0 < d)
  ∧ (∀ d, WithMaxUpdateThreshold d ∈ consensusOpts bgcfg ↔
          d = ConsensusMaxUpdateThreshold bgcfg ∧ 0 < d)
  ∧ (∀ n, WithMaxBlockLag n ∈ consensusOpts bgcfg ↔
          n = ConsensusMaxBlockLag bgcfg ∧ 0 < n)
  ∧ (∀ n, WithMinPeerCount n ∈ consensusOpts bgcfg ↔
          n = ConsensusMinPeerCount bgcfg mod 2 ^ 64
          ∧ 0 < ConsensusMinPeerCount bgcfg)
  ∧ (WithAsyncHandler NewNoopAsyncHandler ∈ consensusOpts bgcfg ↔
     ConsensusAsyncHandler bgcfg = "noop").
Proof.
  unfold consensusOpts.
  split_and!; intros; rewrite !elem_of_appendIf, elem_of_nil;
    rewrite ?Z.ltb_lt, ?String.eqb_eq;
    (split; [intros Hin; decompose [and or] Hin; by simplify_eq
            | intuition (subst; auto 10)]).
Qed.

(** The options of a poller, one by one: the list the loop builds is the
    concatenation of what each setting contributes. *)
Lemma consensusOpts_list (bgcfg : BackendGroupConfig) :
  consensusOpts bgcfg
  = (if String.eqb (ConsensusAsyncHandler bgcfg) "noop"
     then [WithAsyncHandler NewNoopAsyncHandler] else [])
    ++ (if 0 <? ConsensusBanPeriod bgcfg
        then [WithBanPeriod (ConsensusBanPeriod bgcfg)] else [])
    ++ (if 0 <? ConsensusMaxUpdateThreshold bgcfg
        then [WithMaxUpdateThreshold (ConsensusMaxUpdateThreshold bgcfg)]
        else [])
    ++ (if 0 <? ConsensusMaxBlockLag bgcfg
        then [WithMaxBlockLag (ConsensusMaxBlockLag bgcfg)] else [])
    ++ (if 0 <? ConsensusMinPeerCount bgcfg
        then [WithMinPeerCount (ConsensusMinPeerCount bgcfg mod 2 ^ 64)]
        else []).
Proof.
  unfold consensusOpts, appendIf.
  by destruct (String.eqb (ConsensusAsyncHandler bgcfg) "noop"),
    (0 <? ConsensusBanPeriod bgcfg),
    (0 <? ConsensusMaxUpdateThreshold bgcfg),
    (0 <? ConsensusMaxBlockLag bgcfg),
    (0 <? ConsensusMinPeerCount bgcfg).
Qed.

(** C7. After a successful [Start] the store holds one group for each
    configured backend group and no other.  The [Consensus] field of a
    group configured with [consensus_aware] holds a poller created for that
    group, whose options are, in this order, the no-op async handler when
    the configured handler is "noop", then the ban period, the update
    threshold, the block lag and the min peer count, each with its
    configured value and each present exactly when that value is positive.
    The [Consensus] field of a group without the flag holds nothing. *)
Theorem Start_consensus_pollers (E : Env) (config : Config)
    (g g' : Globals) (st : Started) (bgName : string) :
  range_sound E →
  Start E config g = (g', Ok st) →
  match BackendGroups config !! bgName with
  | Some bgcfg =>
      ∃ bg, st_backendGroups st !! bgName = Some bg
            ∧ Consensus bg
              = if ConsensusAware bgcfg
                then
                  Some
                    (NewConsensusPoller bgName
                       ((if String.eqb (ConsensusAsyncHandler bgcfg) "noop"
                         then [WithAsyncHandler NewNoopAsyncHandler] else [])
                        ++ (if 0 <? ConsensusBanPeriod bgcfg
                            then [WithBanPeriod (ConsensusBanPeriod bgcfg)]
                            else [])
                        ++ (if 0 <? ConsensusMaxUpdateThreshold bgcfg
                            then [WithMaxUpdateThreshold
                                    (ConsensusMaxUpdateThreshold bgcfg)]
                            else [])
                        ++ (if 0 <? ConsensusMaxBlockLag bgcfg
                            then [WithMaxBlockLag (ConsensusMaxBlockLag bgcfg)]
                            else [])
                        ++ (if 0 <? ConsensusMinPeerCount bgcfg
                            then [WithMinPeerCount
                                    (ConsensusMinPeerCount bgcfg mod 2 ^ 64)]
                            else [])))
                else None
  | None => st_backendGroups st !! bgName = None
  end.
Proof.
  intros HE Hrun.
  apply Start_Ok_inv in Hrun
    as (redisClient & backendNames & backendsByName & backendGroups & ws
        & auth & rpcCache & bLVC & gLVC & Hrun).
  cbv zeta in Hrun.
  destruct Hrun as (_ & _ & _ & _ & _ & _ & Hgroups & _ & _ & _ & _ & _ & ->).
  simpl. rewrite (createPollers_lookup E) by done.
  apply makeBackendGroups_Ok in Hgroups as [Hfresh Hdom].
  specialize (Hdom bgName). rewrite (range_keys E) in Hdom by done.
  destruct (BackendGroups config !! bgName) as [bgcfg|] eqn:Hcfg.
  - destruct (proj2 Hdom) as [bg Hbg]; [eauto |].
    rewrite Hbg. simpl. eexists. split; [done |].
    destruct (Hfresh bgName bg Hbg) as (_ & Hnone & _).
    unfold withPoller. rewrite Hcfg.
    destruct (ConsensusAware bgcfg); [| done].
    simpl. by rewrite consensusOpts_list.
  - destruct (backendGroups !! bgName) as [bg|] eqn:Hbg; [| done].
    destruct (proj1 Hdom) as [? ?]; [eauto | done].
Qed.

Lemma Start_consensus_pollers_witness :
  ∃ g' st bg,
    Start exampleEnv plainConfig defaultGlobals = (g', Ok st)
    ∧ st_backendGroups st !! "main" = Some bg
    ∧ Consensus bg
      = Some (NewConsensusPoller "main"
                [WithAsyncHandler NewNoopAsyncHandler;
                 WithBanPeriod 5000000000; WithMaxBlockLag 8;
                 WithMinPeerCount 3]).
Proof.
  eexists _, _.
  pose proof (Start_consensus_pollers exampleEnv plainConfig defaultGlobals
                _ _ "main" (λ _ _ _, reflexivity _) eq_refl) as Hmain.
  destruct Hmain as (bg & Hbg & Hcp).
  exists bg. split; [reflexivity |]. split; [exact Hbg | exact Hcp].
Defined.

(** The group configured without the flag ends up with no poller. *)
Example Start_archive_group_has_no_poller :
  ∃ g' st bg,
    Start exampleEnv plainConfig defaultGlobals = (g', Ok st)
    ∧ st_backendGroups st !! "archive" = Some bg
    ∧ Consensus bg = None.
Proof. eexists _, _, _. repeat split; reflexivity. Qed.

(** * Further properties *)

(** ** The reader and the updaters *)

Lemma ParseUint_10_64_value (s : string) (v : Z) :
  ParseUint_10_64 s = (v, None) → decimal_uint64 s ∧ v = decimal_value 0 s.
Proof.
  intros Hparse.
  assert (decimal_uint64 s) as Hdec.
  { destruct (nonempty s) eqn:Hne, (all_digits s) eqn:Hd,
      (Z_le_gt_dec (decimal_value 0 s) maxUint64) as [Hv | Hv];
      try (by repeat split);
      destruct (ParseUint_10_64_rejects s) as (v' & e & He);
      try congruence; intros (? & ? & ?); first [congruence | lia]. }
  split; [done |].
  rewrite (ParseUint_10_64_accepts s Hdec) in Hparse. congruence.
Qed.

Lemma decimal_value_nonneg (s : string) (acc : Z) :
  all_digits s = true → 0 ≤ acc → 0 ≤ decimal_value acc s.
Proof.
  intros Hd Hacc. pose proof (decimal_value_mono s acc Hd Hacc). lia.
Qed.

(** X1. The reader returns a number without an error exactly when the read
    succeeded with a decimal uint64, and the number is then its value, which
    lies in the uint64 range. *)
Theorem makeUint64LastValueFn_reader_succeeds_iff (client : EthClient)
    (cache : Cache) (key : string) (updater : lvcUpdateFn)
    (value : string) (err : option error) (v : Z) :
  (call_Uint64LastValueFn
     (makeUint64LastValueFn client cache key updater).2 (value, err)
   = (v, None)
   ↔ err = None ∧ decimal_uint64 value ∧ v = decimal_value 0 value)
  ∧ (call_Uint64LastValueFn
       (makeUint64LastValueFn client cache key updater).2 (value, err)
     = (v, None) → 0 ≤ v ≤ maxUint64).
Proof.
  assert (call_Uint64LastValueFn
            (makeUint64LastValueFn client cache key updater).2 (value, err)
          = (v, None)
          → err = None ∧ decimal_uint64 value ∧ v = decimal_value 0 value)
    as Hinv.
  { unfold call_Uint64LastValueFn. destruct err as [e|]; [done |].
    destruct (nonempty value) eqn:Hne; [| done].
    destruct (ParseUint_10_64 value) as [valueUint [e|]] eqn:Hparse; [done |].
    intros [= <-]. by destruct (ParseUint_10_64_value value valueUint Hparse). }
  split; [split; [exact Hinv |] |].
  - intros (-> & Hdec & ->). by apply call_Uint64LastValueFn_value.
  - intros Hcall. destruct (Hinv Hcall) as (_ & (_ & Hd & Hv) & ->).
    split; [by apply decimal_value_nonneg | done].
Qed.

Lemma makeUint64LastValueFn_reader_succeeds_iff_witness :
  call_Uint64LastValueFn
    (makeUint64LastValueFn {| ec_url := "http://sequencer:8545" |}
       newMemoryCache "lvc:gas_price" updateGasPrice).2
    ("0042", None)
  = (42, None)
  ∧ 0 ≤ 42 ≤ maxUint64.
Proof.
  split; [reflexivity |].
  apply (makeUint64LastValueFn_reader_succeeds_iff
           {| ec_url := "http://sequencer:8545" |} newMemoryCache
           "lvc:gas_price" updateGasPrice "0042" None 42).
  reflexivity.
Defined.

Lemma byte_of_digit (d : Z) :
  0 ≤ d ≤ 9 → byte_of (ascii_of_N (Z.to_N (48 + d))) = 48 + d.
Proof.
  intros Hd. unfold byte_of. rewrite N_ascii_embedding by lia. lia.
Qed.

Lemma formatDecimal_loop_spec (fuel : nat) (n : Z) (acc : string) :
  0 ≤ n < 2 ^ Z.of_nat (S fuel) →
  nonempty (formatDecimal_loop (S fuel) n acc) = true
  ∧ all_digits (formatDecimal_loop (S fuel) n acc) = all_digits acc
  ∧ ∃ k, 0 ≤ k ∧ ∀ a,
      decimal_value a (formatDecimal_loop (S fuel) n acc)
      = decimal_value (a * 10 ^ k + n) acc.
Proof.
  revert n acc. induction fuel as [|fuel IH]; intros n acc Hn.
  - assert (n / 10 = 0) as Hq.
    { apply Z.div_small. change (2 ^ Z.of_nat 1) with 2 in Hn. lia. }
    cbn [formatDecimal_loop]. rewrite Hq. cbn [Z.eqb nonempty all_digits].
    pose proof (Z.mod_pos_bound n 10 ltac:(lia)) as Hd.
    unfold is_digit. rewrite byte_of_digit by lia.
    split; [done |]. split.
    { replace (48 <=? 48 + n mod 10) with true by (symmetry; lia).
      replace (48 + n mod 10 <=? 57) with true by (symmetry; lia). done. }
    exists 1. split; [lia |]. intros a. cbn [decimal_value].
    rewrite byte_of_digit by lia. f_equal.
    rewrite Z.mod_small; [lia |]. change (2 ^ Z.of_nat 1) with 2 in Hn. lia.
  - change (formatDecimal_loop (S (S fuel)) n acc)
      with (let acc' := String (ascii_of_N (Z.to_N (48 + n mod 10))) acc in
            if n / 10 =? 0 then acc'
            else formatDecimal_loop (S fuel) (n / 10) acc').
    cbv zeta.
    pose proof (Z.mod_pos_bound n 10 ltac:(lia)) as Hd.
    pose proof (Z.div_mod n 10 ltac:(lia)) as Hdm.
    assert (is_digit (ascii_of_N (Z.to_N (48 + n mod 10))) = true) as Hdig.
    { unfold is_digit. rewrite byte_of_digit by lia.
      apply andb_true_intro. split; lia. }
    destruct (Z.eqb_spec (n / 10) 0) as [Hq | Hq].
    + cbn [nonempty all_digits]. rewrite Hdig.
      split; [done |]. split; [done |].
      exists 1. split; [lia |]. intros a. cbn [decimal_value].
      rewrite byte_of_digit by lia. f_equal. lia.
    + assert (0 ≤ n / 10 < 2 ^ Z.of_nat (S fuel)) as Hrec.
      { split; [apply Z.div_pos; lia |].
        apply Z.div_lt_upper_bound; [lia |].
        rewrite (Nat2Z.inj_succ (S fuel)), Z.pow_succ_r in Hn by lia. lia. }
      destruct (IH (n / 10) (String (ascii_of_N (Z.to_N (48 + n mod 10))) acc)
                  Hrec) as (Hne & Hall & k & Hk & Hval).
      split; [done |]. split.
      { rewrite Hall. cbn [all_digits]. by rewrite Hdig. }
      exists (k + 1). split; [lia |]. intros a.
      rewrite Hval. cbn [decimal_value]. rewrite byte_of_digit by lia.
      f_equal. rewrite Z.pow_add_r by lia. lia.
Qed.

(** Printing a non-negative number in decimal gives a non-empty string of
    digits whose value is the number. *)
Lemma formatDecimal_spec (n : Z) :
  0 ≤ n →
  nonempty (formatDecimal n) = true ∧ all_digits (formatDecimal n) = true
  ∧ decimal_value 0 (formatDecimal n) = n.
Proof.
  intros Hn. unfold formatDecimal.
  assert (0 ≤ n < 2 ^ Z.of_nat (S (Z.to_nat (Z.log2 n)))) as Hfuel.
  { split; [done |]. rewrite Nat2Z.inj_succ, Z2Nat.id by apply Z.log2_nonneg.
    destruct (decide (n = 0)) as [-> | Hpos]; [done |].
    apply Z.log2_spec. lia. }
  destruct (formatDecimal_loop_spec _ n EmptyString Hfuel)
    as (Hne & Hall & k & Hk & Hval).
  split; [done |]. split; [done |]. rewrite Hval. simpl. lia.
Qed.

(** X2. Round trip of the block number: when the read returns the string
    the block-number updater produced for a uint64 block number, the reader
    returns that block number. *)
Theorem blockNumber_round_trip (client : EthClient) (cache : Cache)
    (blockNum : Z) (err : option error) :
  0 ≤ blockNum < 2 ^ 64 →
  call_Uint64LastValueFn (makeGetLatestBlockNumFn client cache).2
    ((blockNumberUpdater (blockNum, err)).1, None)
  = (blockNum, None).
Proof.
  intros Hrange. unfold blockNumberUpdater, FormatUint_10. cbn [fst].
  destruct (formatDecimal_spec blockNum) as (Hne & Hall & Hval); [lia |].
  rewrite call_Uint64LastValueFn_value; [by rewrite Hval |].
  repeat split; [done.. |]. rewrite Hval. unfold maxUint64. lia.
Qed.

Lemma blockNumber_round_trip_witness :
  call_Uint64LastValueFn
    (makeGetLatestBlockNumFn {| ec_url := "http://sequencer:8545" |}
       newMemoryCache).2
    ((blockNumberUpdater (18446744073709551615, None)).1, None)
  = (18446744073709551615, None).
Proof.
  apply (blockNumber_round_trip {| ec_url := "http://sequencer:8545" |}
           newMemoryCache 18446744073709551615 None).
  split; [lia | reflexivity].
Defined.

Lemma makeUint64LastValueFn_reader_errors_general (fn : Uint64LastValueFn)
    (value : string) :
  ¬ decimal_uint64 value →
  ∃ e, call_Uint64LastValueFn fn (value, None) = (0, Some e).
Proof.
  intros Hnot. unfold call_Uint64LastValueFn.
  destruct (nonempty value) eqn:Hne; [| eauto].
  destruct (ParseUint_10_64_rejects value Hnot) as (v & e & ->). eauto.
Qed.

(** X3. The gas price read back: a suggested gas price within the uint64
    range is returned as it is; a negative one, or one of [2 ^ 64] or more,
    makes the reader return 0 and an error. *)
Theorem gasPrice_round_trip (client : EthClient) (cache : Cache)
    (gasPrice : Z) :
  (0 ≤ gasPrice < 2 ^ 64 →
   call_Uint64LastValueFn (makeGetLatestGasPriceFn client cache).2
     (gasPriceUpdater (gasPrice, None))
   = (gasPrice, None))
  ∧ (gasPrice < 0 ∨ 2 ^ 64 ≤ gasPrice →
     ∃ e, call_Uint64LastValueFn (makeGetLatestGasPriceFn client cache).2
            (gasPriceUpdater (gasPrice, None))
          = (0, Some e)).
Proof.
  unfold gasPriceUpdater, bigInt_String. split.
  - intros Hrange. destruct (Z.ltb_spec gasPrice 0); [lia |].
    destruct (formatDecimal_spec gasPrice) as (Hne & Hall & Hval); [lia |].
    rewrite call_Uint64LastValueFn_value; [by rewrite Hval |].
    repeat split; [done.. |]. rewrite Hval. unfold maxUint64. lia.
  - intros Hout.
    apply (makeUint64LastValueFn_reader_errors_general
             (makeGetLatestGasPriceFn client cache).2).
    destruct (Z.ltb_spec gasPrice 0) as [Hneg | Hpos].
    + intros (_ & Hall & _). done.
    + destruct (formatDecimal_spec gasPrice) as (_ & _ & Hval); [lia |].
      intros (_ & _ & Hfit). rewrite Hval in Hfit. unfold maxUint64 in Hfit.
      lia.
Qed.

Lemma gasPrice_round_trip_witness :
  call_Uint64LastValueFn
    (makeGetLatestGasPriceFn {| ec_url := "http://sequencer:8545" |}
       newMemoryCache).2
    (gasPriceUpdater (1000000007, None))
  = (1000000007, None)
  ∧ ∃ e, call_Uint64LastValueFn
           (makeGetLatestGasPriceFn {| ec_url := "http://sequencer:8545" |}
              newMemoryCache).2
           (gasPriceUpdater (2 ^ 64, None))
         = (0, Some e).
Proof.
  split.
  - apply (gasPrice_round_trip {| ec_url := "http://sequencer:8545" |}
             newMemoryCache 1000000007). lia.
  - apply (gasPrice_round_trip {| ec_url := "http://sequencer:8545" |}
             newMemoryCache (2 ^ 64)). right. lia.
Defined.

(** ** Durations *)

(** X4. [secondsToDuration] always returns an int64, and it returns the
    number of nanoseconds in [seconds] seconds exactly when [seconds] is
    between -9223372036 and 9223372036; outside this range the product
    wraps around. *)
Theorem secondsToDuration_exact_iff (seconds : Z) :
  - 2 ^ 63 ≤ secondsToDuration seconds < 2 ^ 63
  ∧ (secondsToDuration seconds = seconds * 1000000000
     ↔ -9223372036 ≤ seconds ≤ 9223372036).
Proof.
  unfold secondsToDuration, wrap64, time_Second.
  change (2 ^ 63) with 9223372036854775808.
  change (2 ^ 64) with 18446744073709551616.
  pose proof (Z.mod_pos_bound
                (seconds * 1000000000 + 9223372036854775808)
                18446744073709551616 ltac:(lia)) as Hmod.
  split; [lia |]. split.
  - intros Heq.
    assert ((seconds * 1000000000 + 9223372036854775808)
              mod 18446744073709551616
            = seconds * 1000000000 + 9223372036854775808) as Hsmall by lia.
    rewrite Hsmall in Hmod. lia.
  - intros Hrange. rewrite Z.mod_small by lia. lia.
Qed.

(** ** Backend TLS *)

(** X5. Without a CA file [configureBackendTLS] returns no TLS
    configuration and no error, whatever client certificate and key files
    are named.  It fails exactly when a CA file is named and either
    [CreateTLSClient] fails or both client files are named and
    [ParseKeyPair] fails.  With a CA file, what it returns is determined:
    the configuration [CreateTLSClient] built, untouched when one of the
    two client files is not named, and with its certificates replaced by
    the parsed key pair when both are. *)
Theorem configureBackendTLS_cases (E : Env) (cfg : BackendConfig) :
  (CAFile cfg = EmptyString → configureBackendTLS E cfg = Ok None)
  ∧ (failed (configureBackendTLS E cfg) ↔
     CAFile cfg ≠ EmptyString
     ∧ (failed (CreateTLSClient E (CAFile cfg))
        ∨ (ClientCertFile cfg ≠ EmptyString ∧ ClientKeyFile cfg ≠ EmptyString
           ∧ failed (ParseKeyPair E (ClientCertFile cfg)
                       (ClientKeyFile cfg)))))
  ∧ (CAFile cfg ≠ EmptyString →
     ∀ tls, configureBackendTLS E cfg = Ok tls ↔
       ∃ base, CreateTLSClient E (CAFile cfg) = Ok base
         ∧ ((ClientCertFile cfg = EmptyString ∨ ClientKeyFile cfg = EmptyString)
            ∧ tls = Some base
            ∨ ClientCertFile cfg ≠ EmptyString
              ∧ ClientKeyFile cfg ≠ EmptyString
              ∧ ∃ cert,
                  ParseKeyPair E (ClientCertFile cfg) (ClientKeyFile cfg)
                  = Ok cert
                  ∧ tls = Some {| RootCAs := RootCAs base;
                                  Certificates := [cert] |})).
Proof.
  unfold configureBackendTLS.
  destruct (CAFile cfg) as [|c ca] eqn:Hca; cbn [nonempty].
  { split; [done |]. split; [| done].
    split; [done | by intros [? _]]. }
  split; [done |].
  destruct (CreateTLSClient E (String c ca)) as [base|e]; simpl.
  2:{ split.
      - split; [intros _; split; [done | by left] | done].
      - intros _ tls. split; [done | by intros (? & ? & _)]. }
  destruct (ClientCertFile cfg) as [|c1 cert] eqn:Hcert; simpl.
  { split.
    - split; [done |]. intros (_ & [? | (? & _)]); done.
    - intros _ tls. split.
      + intros [= <-]. exists base. split; [done |]. left. auto.
      + intros (base' & [= <-] & [[_ ->] | (? & _)]); done. }
  destruct (ClientKeyFile cfg) as [|c2 key] eqn:Hkey; simpl.
  { split.
    - split; [done |]. intros (_ & [? | (_ & ? & _)]); done.
    - intros _ tls. split.
      + intros [= <-]. exists base. split; [done |]. left. auto.
      + intros (base' & [= <-] & [[_ ->] | (_ & ? & _)]); done. }
  destruct (ParseKeyPair E (String c1 cert) (String c2 key)) as [kp|e]; simpl.
  - split.
    + split; [done |]. intros (_ & [? | (_ & _ & ?)]); done.
    + intros _ tls. split.
      * intros [= <-]. exists base. split; [done |]. right.
        split; [done |]. split; [done |]. eauto.
      * intros (base' & [= <-] & [[[? | ?] _] | (_ & _ & kp' & [= <-] & ->)]);
          done.
  - split.
    + split; [| done]. intros _. split; [done |]. right. done.
    + intros _ tls. split; [done |].
      intros (base' & _ & [[[? | ?] _] | (_ & _ & kp' & ? & _)]); done.
Qed.

Lemma configureBackendTLS_cases_witness :
  configureBackendTLS exampleEnv
    {| Username := EmptyString; Password := EmptyString;
       RPCURL := "http://node1:8545"; WSURL := EmptyString;
       MaxRPS := 0; MaxWSConns := 0;
       CAFile := EmptyString; ClientCertFile := "client.pem";
       ClientKeyFile := "client.key";
       StripTrailingXFF := false; SkipPeerCountCheck := false |}
  = Ok None
  ∧ configureBackendTLS exampleEnv
      {| Username := EmptyString; Password := EmptyString;
         RPCURL := "http://node1:8545"; WSURL := EmptyString;
         MaxRPS := 0; MaxWSConns := 0;
         CAFile := "ca.pem"; ClientCertFile := "client.pem";
         ClientKeyFile := EmptyString;
         StripTrailingXFF := false; SkipPeerCountCheck := false |}
    = Ok (Some {| RootCAs := "ca.pem"; Certificates := [] |})
  ∧ configureBackendTLS exampleEnv
      {| Username := EmptyString; Password := EmptyString;
         RPCURL := "http://node1:8545"; WSURL := EmptyString;
         MaxRPS := 0; MaxWSConns := 0;
         CAFile := "ca.pem"; ClientCertFile := "client.pem";
         ClientKeyFile := "client.key";
         StripTrailingXFF := false; SkipPeerCountCheck := false |}
    = Ok (Some {| RootCAs := "ca.pem";
                  Certificates := [{| certFile := "client.pem";
                                      keyFile := "client.key" |}] |}).
Proof.
  split; [| split].
  - refine (proj1 (configureBackendTLS_cases exampleEnv _) _). reflexivity.
  - match goal with
    | |- configureBackendTLS _ ?c = _ =>
        destruct (configureBackendTLS_cases exampleEnv c) as (_ & _ & Hcase)
    end.
    apply Hcase; [discriminate |].
    exists {| RootCAs := "ca.pem"; Certificates := [] |}.
    split; [reflexivity |]. left. split; [right; reflexivity | reflexivity].
  - match goal with
    | |- configureBackendTLS _ ?c = _ =>
        destruct (configureBackendTLS_cases exampleEnv c) as (_ & _ & Hcase)
    end.
    apply Hcase; [discriminate |].
    exists {| RootCAs := "ca.pem"; Certificates := [] |}.
    split; [reflexivity |]. right.
    split; [discriminate |]. split; [discriminate |].
    exists {| certFile := "client.pem"; keyFile := "client.key" |}.
    split; reflexivity.
Defined.

(** ** What a successful [Start] has wired *)

Lemma configureBackend_urls (E : Env) (config : Config)
    (lim : BackendRateLimiter) (sem : Semaphore) (name : string)
    (cfg : BackendConfig) (back : Backend) :
  configureBackend E config lim sem name cfg = Ok back →
  b_name back = name
  ∧ ReadFromEnvOrConfig E (RPCURL cfg) = Ok (b_rpcURL back)
  ∧ ReadFromEnvOrConfig E (WSURL cfg) = Ok (b_wsURL back)
  ∧ b_rpcURL back ≠ EmptyString.
Proof.
  unfold configureBackend. intros H.
  bind_inv H as rpcURL Hrpc. bind_inv H as wsURL Hws.
  bind_inv H as [] Hurl. bind_inv H as opts Hopts. bind_inv H as tls Htls.
  injection H as <-. simpl.
  apply failIf_Ok, negb_false_iff in Hurl.
  repeat split; [done.. |]. by intros ->.
Qed.

(** The loop over [config.Backends], traced: the names in the order
    visited, each entry of [backendsByName] built from a visited entry of
    the configuration, and every visited name present. *)
Lemma configureBackends_trace (E : Env) (config : Config)
    (lim : BackendRateLimiter) (sem : Semaphore)
    (backendNames : list string) (backendsByName : gmap string Backend) :
  configureBackends E config lim sem = Ok (backendNames, backendsByName) →
  backendNames = (range E 98 _ (Backends config)).*1
  ∧ (∀ name back, backendsByName !! name = Some back →
       ∃ cfg, (name, cfg) ∈ range E 98 _ (Backends config)
              ∧ configureBackend E config lim sem name cfg = Ok back)
  ∧ (∀ name, name ∈ backendNames → is_Some (backendsByName !! name)).
Proof.
  unfold configureBackends. intros Hrun.
  refine (foldM_prefix_ind
            (λ done (s : list string * gmap string Backend),
               s.1 = done.*1
               ∧ (∀ name back, s.2 !! name = Some back →
                    ∃ cfg, (name, cfg) ∈ done
                           ∧ configureBackend E config lim sem name cfg
                             = Ok back)
               ∧ (∀ name, name ∈ s.1 → is_Some (s.2 !! name)))
            _ _ _ (backendNames, backendsByName) _ _ Hrun).
  - simpl. split; [done |]. split.
    + intros ??. by rewrite lookup_empty.
    + intros ? Hin. by apply elem_of_nil in Hin.
  - intros done [name cfg] [names byName] s2 _ (Hnames & Hfrom & Hall) Hstep.
    bind_inv Hstep as b Hb. injection Hstep as <-. simpl in *.
    split; [by rewrite fmap_app, Hnames |]. split.
    + intros name' back'. rewrite lookup_insert. case_decide as Hname.
      * intros [= <-]. subst name'. exists cfg.
        split; [apply elem_of_app; right; by apply list_elem_of_singleton | done].
      * intros Hlook. destruct (Hfrom name' back' Hlook) as (cfg' & Hin & Hcfg).
        exists cfg'. split; [apply elem_of_app; by left | done].
    + intros name' Hin. rewrite lookup_insert. case_decide; [eauto |].
      apply Hall. apply elem_of_app in Hin as [Hin | Hin]; [done |].
      apply list_elem_of_singleton in Hin. congruence.
Qed.

(** The backends of a group are looked up one by one, in the order of the
    names. *)
Lemma groupBackends_Forall2 (backendsByName : gmap string Backend)
    (names : list string) (backends : list Backend) :
  groupBackends backendsByName names = Ok backends →
  Forall2 (λ bName back, backendsByName !! bName = Some back) names backends.
Proof.
  unfold groupBackends.
  assert (∀ acc, foldM
            (λ backends bName,
               match backendsByName !! bName with
               | None => Error (errorString
                                  ("backend " ++ bName ++ " is not defined"))
               | Some back => Ok (backends ++ [back])
               end) names acc = Ok backends →
            ∃ rest, backends = acc ++ rest
              ∧ Forall2 (λ bName back, backendsByName !! bName = Some back)
                  names rest) as Hgen.
  { induction names as [|bName names IH]; intros acc Hrun; simpl in Hrun.
    - injection Hrun as <-. exists []. by rewrite app_nil_r.
    - bind_inv Hrun as acc' Hstep.
      destruct (backendsByName !! bName) as [back|] eqn:Hback;
        [| discriminate Hstep].
      injection Hstep as <-.
      destruct (IH _ Hrun) as (rest & -> & Hrest).
      exists (back :: rest). split; [by rewrite <- app_assoc |].
      by constructor. }
  intros Hrun. destruct (Hgen [] Hrun) as (rest & -> & Hrest). done.
Qed.

(** The loop over [config.BackendGroups], traced. *)
Lemma makeBackendGroups_trace (E : Env) (config : Config)
    (backendsByName : gmap string Backend)
    (backendGroups : gmap string BackendGroup) :
  makeBackendGroups E config backendsByName = Ok backendGroups →
  ∀ bgName bg, backendGroups !! bgName = Some bg →
    ∃ bgcfg, (bgName, bgcfg) ∈ range E 169 _ (BackendGroups config)
             ∧ groupBackends backendsByName (bg_Backends bgcfg)
               = Ok (bg_backends bg).
Proof.
  unfold makeBackendGroups. intros Hrun.
  refine (foldM_ind
            (λ s : gmap string BackendGroup,
               ∀ bgName bg, s !! bgName = Some bg →
                 ∃ bgcfg, (bgName, bgcfg) ∈ range E 169 _ (BackendGroups config)
                          ∧ groupBackends backendsByName (bg_Backends bgcfg)
                            = Ok (bg_backends bg))
            _ _ _ _ _ _ Hrun).
  - intros ??. by rewrite lookup_empty.
  - intros [bgName bgcfg] s1 s2 Hin IH Hstep bgName' bg.
    bind_inv Hstep as backends Hbs. injection Hstep as <-.
    rewrite lookup_insert. case_decide as Hname; [| apply IH].
    intros [= <-]. subst bgName'. by exists bgcfg.
Qed.

Lemma createPollers_is_Some (E : Env) (config : Config)
    (backendGroups : gmap string BackendGroup) (name : string) :
  is_Some (createPollers E config backendGroups !! name)
  ↔ is_Some (backendGroups !! name).
Proof.
  unfold createPollers. rewrite createPoller_fold_lookup.
  case_decide; [| done]. by rewrite fmap_is_Some.
Qed.

Lemma checkMethodMappings_Ok (E : Env) (config : Config)
    (backendGroups : gmap string BackendGroup) (method bgName : string) :
  range_sound E →
  checkMethodMappings E config backendGroups = Ok tt →
  RPCMethodMappings config !! method = Some bgName →
  is_Some (backendGroups !! bgName).
Proof.
  intros HE Hrun Hmap.
  destruct (backendGroups !! bgName) as [bg|] eqn:Hbg; [eauto |].
  eapply failed_not_Ok in Hrun; [done |].
  by apply (checkMethodMappings_undefined E config _ method bgName).
Qed.

Lemma range_lookup_unique (E : Env) (site : Z) {A} (m : gmap string A)
    (k : string) (v v' : A) :
  range_sound E → (k, v) ∈ range E site A m → m !! k = Some v' → v = v'.
Proof.
  intros HE Hin Hlook. apply (range_elem_of E) in Hin; [| done]. congruence.
Qed.

Ltac start_inv Hrun :=
  apply Start_Ok_inv in Hrun
    as (redisClient & backendNames & backendsByName & backendGroups
        & wsBackendGroup & resolvedAuth & rpcCache & blockNumLVC
        & gasPriceLVC & Hrun);
  cbv zeta in Hrun;
  destruct Hrun
    as (Hnonempty & Hauthkeys & Hredis & Hglobals & Hsender & Hbackends
        & Hgroups & Hws & Hmappings & Hresolved & Hcache & Hserver & Hst).

Lemma withPoller_name (config : Config) (bgName : string) (bg : BackendGroup) :
  Name (withPoller config bgName bg) = Name bg.
Proof.
  unfold withPoller. destruct (BackendGroups config !! bgName) as [bgcfg|]; [| done].
  by destruct (ConsensusAware bgcfg).
Qed.

Lemma makeBackendGroups_lookup (E : Env) (config : Config)
    (backendsByName : gmap string Backend)
    (backendGroups : gmap string BackendGroup)
    (bgName : string) (bgcfg : BackendGroupConfig) :
  range_sound E →
  makeBackendGroups E config backendsByName = Ok backendGroups →
  BackendGroups config !! bgName = Some bgcfg →
  ∃ bg, backendGroups !! bgName = Some bg ∧ Name bg = bgName
        ∧ Forall2 (λ bName back, backendsByName !! bName = Some back)
            (bg_Backends bgcfg) (bg_backends bg).
Proof.
  intros HE Hrun Hcfg.
  destruct (makeBackendGroups_Ok _ _ _ _ Hrun) as [Hfresh Hdom].
  destruct (proj2 (Hdom bgName)) as [bg Hbg].
  { apply (range_keys E); [done | eauto]. }
  exists bg. split; [done |]. split; [by destruct (Hfresh bgName bg Hbg) |].
  destruct (makeBackendGroups_trace _ _ _ _ Hrun bgName bg Hbg)
    as (bgcfg' & Hin & Hbs).
  rewrite (range_lookup_unique E 169 _ bgName bgcfg' bgcfg HE Hin Hcfg) in Hbs.
  by apply groupBackends_Forall2.
Qed.

(** X6. The names handed to [FlushBackendWSConns] at shutdown are the
    configured backend names, each exactly once. *)
Theorem Start_backendNames (E : Env) (config : Config) (g g' : Globals)
    (st : Started) :
  range_sound E →
  Start E config g = (g', Ok st) →
  NoDup (sd_backendNames (st_shutdownFunc st))
  ∧ ∀ name, name ∈ sd_backendNames (st_shutdownFunc st)
            ↔ is_Some (Backends config !! name).
Proof.
  intros HE Hrun. start_inv Hrun. subst st. simpl.
  destruct (configureBackends_trace _ _ _ _ _ _ Hbackends) as (-> & _ & _).
  split.
  - rewrite (HE 98 _ (Backends config)). apply NoDup_fst_map_to_list.
  - intros name. by apply (range_keys E).
Qed.

Lemma Start_backendNames_witness :
  ∃ g' st,
    Start exampleEnv plainConfig defaultGlobals = (g', Ok st)
    ∧ NoDup (sd_backendNames (st_shutdownFunc st))
    ∧ ∀ name, name ∈ sd_backendNames (st_shutdownFunc st)
              ↔ is_Some (Backends plainConfig !! name).
Proof.
  eexists _, _. split; [reflexivity |].
  eapply (Start_backendNames exampleEnv plainConfig defaultGlobals);
    [intros site A m; reflexivity | reflexivity].
Defined.

(** X7. Every backend of every group a successful [Start] returns is a
    configured backend: it carries the name of an entry of
    [config.Backends], its RPC and WS URLs are the resolutions of that
    entry's URLs, and its RPC URL is not empty. *)
Theorem Start_backend_urls (E : Env) (config : Config) (g g' : Globals)
    (st : Started) (bgName : string) (bg : BackendGroup) (back : Backend) :
  range_sound E →
  Start E config g = (g', Ok st) →
  st_backendGroups st !! bgName = Some bg → back ∈ bg_backends bg →
  ∃ cfg, Backends config !! b_name back = Some cfg
         ∧ ReadFromEnvOrConfig E (RPCURL cfg) = Ok (b_rpcURL back)
         ∧ ReadFromEnvOrConfig E (WSURL cfg) = Ok (b_wsURL back)
         ∧ b_rpcURL back ≠ EmptyString.
Proof.
  intros HE Hrun Hbg Hback. start_inv Hrun. subst st. simpl in Hbg.
  apply createPollers_backends in Hbg as (bg0 & Hbg0 & Heq).
  rewrite Heq in Hback.
  destruct (makeBackendGroups_Ok _ _ _ _ Hgroups) as [Hfresh _].
  destruct (Hfresh bgName bg0 Hbg0) as (_ & _ & Hfrom).
  destruct (Hfrom back Hback) as [name Hname].
  destruct (configureBackends_trace _ _ _ _ _ _ Hbackends) as (_ & Htrace & _).
  destruct (Htrace name back Hname) as (cfg & Hin & Hcfg).
  apply configureBackend_urls in Hcfg as (-> & Hrpc & Hwsurl & Hne).
  exists cfg. split; [by apply (range_elem_of E) in Hin | done].
Qed.

Lemma Start_backend_urls_witness :
  ∃ g' st bg back,
    Start exampleEnv plainConfig defaultGlobals = (g', Ok st)
    ∧ st_backendGroups st !! "archive" = Some bg
    ∧ bg_backends bg = [back]
    ∧ ∃ cfg, Backends plainConfig !! b_name back = Some cfg
             ∧ ReadFromEnvOrConfig exampleEnv (RPCURL cfg)
               = Ok (b_rpcURL back)
             ∧ ReadFromEnvOrConfig exampleEnv (WSURL cfg)
               = Ok (b_wsURL back)
             ∧ b_rpcURL back ≠ EmptyString.
Proof.
  eexists _, _, _, _. split; [reflexivity |]. split; [reflexivity |].
  split; [reflexivity |].
  eapply (Start_backend_urls exampleEnv plainConfig defaultGlobals _ _
            "archive");
    [intros site A m; reflexivity | reflexivity | reflexivity |].
  apply list_elem_of_here.
Defined.

(** X8. A group keeps the order of its configuration: the names of the
    backends of a returned group are the [backends] list configured for
    it, entry by entry, repetitions included. *)
Theorem Start_group_backend_order (E : Env) (config : Config)
    (g g' : Globals) (st : Started) (bgName : string)
    (bgcfg : BackendGroupConfig) :
  range_sound E →
  Start E config g = (g', Ok st) →
  BackendGroups config !! bgName = Some bgcfg →
  ∃ bg, st_backendGroups st !! bgName = Some bg ∧ Name bg = bgName
        ∧ b_name <$> bg_backends bg = bg_Backends bgcfg.
Proof.
  intros HE Hrun Hcfg. start_inv Hrun. subst st. simpl.
  destruct (makeBackendGroups_lookup _ _ _ _ _ _ HE Hgroups Hcfg)
    as (bg & Hbg & Hname & Hall).
  exists (withPoller config bgName bg).
  rewrite (createPollers_lookup E) by done. rewrite Hbg.
  split; [done |]. rewrite withPoller_name, withPoller_backends.
  split; [done |].
  destruct (configureBackends_trace _ _ _ _ _ _ Hbackends) as (_ & Htrace & _).
  induction Hall as [|bName back names backs Hlook _ IH]; [done |].
  simpl. f_equal; [| exact IH].
  destruct (Htrace bName back Hlook) as (cfg & _ & Hback).
  by apply configureBackend_urls in Hback as (? & _).
Qed.

Lemma Start_group_backend_order_witness :
  ∃ g' st bg,
    Start exampleEnv plainConfig defaultGlobals = (g', Ok st)
    ∧ st_backendGroups st !! "main" = Some bg ∧ Name bg = "main"
    ∧ b_name <$> bg_backends bg = ["node1"; "node2"].
Proof.
  eexists _, _.
  destruct (Start_group_backend_order exampleEnv plainConfig defaultGlobals
              _ _ "main" (exampleGroup ["node1"; "node2"] true)
              (λ _ _ _, reflexivity _) eq_refl eq_refl)
    as (bg & Hbg & Hname & Horder).
  exists bg. split; [reflexivity |].
  split; [exact Hbg |]. split; [exact Hname | exact Horder].
Defined.

(** X9. A configuration [Start] accepts is well formed, and the result has
    no dangling reference: backends, groups and mappings are not empty,
    "none" is not an authentication key, every backend a group lists is
    defined, every RPC method is mapped to a defined group that is present
    in the returned store, and the RPC URL of every configured backend,
    listed by a group or not, resolves to a non-empty string. *)
Theorem Start_Ok_config_valid (E : Env) (config : Config) (g g' : Globals)
    (st : Started) :
  range_sound E →
  Start E config g = (g', Ok st) →
  Backends config ≠ ∅ ∧ BackendGroups config ≠ ∅
  ∧ RPCMethodMappings config ≠ ∅
  ∧ (∀ auth, Authentication config = Some auth → auth !! "none" = None)
  ∧ (∀ bgName bgcfg bName,
       BackendGroups config !! bgName = Some bgcfg →
       bName ∈ bg_Backends bgcfg → is_Some (Backends config !! bName))
  ∧ (∀ method bgName,
       RPCMethodMappings config !! method = Some bgName →
       is_Some (BackendGroups config !! bgName)
       ∧ is_Some (st_backendGroups st !! bgName))
  ∧ (∀ name cfg,
       Backends config !! name = Some cfg →
       ∃ url, ReadFromEnvOrConfig E (RPCURL cfg) = Ok url
              ∧ url ≠ EmptyString).
Proof.
  intros HE Hrun. start_inv Hrun. subst st. simpl.
  apply checkNonEmpty_Ok in Hnonempty as (? & ? & ?).
  destruct (configureBackends_trace _ _ _ _ _ _ Hbackends)
    as (Hnames & Htrace & Hall).
  split_and!; [done | done | done | | | |].
  - by apply (checkAuthKeys_Ok E config HE).
  - intros bgName bgcfg bName Hcfg Hin.
    destruct (makeBackendGroups_lookup _ _ _ _ _ _ HE Hgroups Hcfg)
      as (bg & _ & _ & Hlooks).
    apply list_elem_of_lookup in Hin as [i Hi].
    destruct (Forall2_lookup_l _ _ _ i bName Hlooks Hi) as (back & _ & Hback).
    destruct (Htrace bName back Hback) as (cfg & Hcfgin & _).
    apply (range_elem_of E) in Hcfgin; eauto.
  - intros method bgName Hmap.
    pose proof (checkMethodMappings_Ok E config _ method bgName HE
                  Hmappings Hmap) as Hsome.
    split; [| by apply createPollers_is_Some].
    destruct (makeBackendGroups_Ok _ _ _ _ Hgroups) as [_ Hdom].
    apply Hdom in Hsome. by apply (range_keys E) in Hsome.
  - intros name cfg Hcfg.
    destruct (Hall name) as [back Hback].
    { rewrite Hnames. apply (range_keys E); [done | eauto]. }
    destruct (Htrace name back Hback) as (cfg' & Hin & Hconf).
    rewrite (range_lookup_unique E 98 _ name cfg' cfg HE Hin Hcfg) in Hconf.
    apply configureBackend_urls in Hconf as (_ & Hrpc & _ & Hne). eauto.
Qed.

Lemma Start_Ok_config_valid_witness :
  ∃ g' st,
    Start exampleEnv plainConfig defaultGlobals = (g', Ok st)
    ∧ ∀ method bgName,
        RPCMethodMappings plainConfig !! method = Some bgName →
        is_Some (BackendGroups plainConfig !! bgName)
        ∧ is_Some (st_backendGroups st !! bgName).
Proof.
  eexists _, _. split; [reflexivity |].
  eapply (Start_Ok_config_valid exampleEnv plainConfig defaultGlobals);
    [intros site A m; reflexivity | reflexivity].
Defined.

(** ** The WebSocket group *)

(** X10. A WS port without a WS backend group, and a WS backend group
    that is not defined, make [Start] fail.  After a successful [Start]
    the server's WS group is the configured one, it is present in the
    returned store, and a WS listener is launched only if a WS group is
    configured. *)
Theorem Start_ws_backend_group (E : Env) (config : Config) :
  (WSBackendGroup config = EmptyString → WSPort (Server_ config) ≠ 0 →
   Start_fails E config)
  ∧ (range_sound E → WSBackendGroup config ≠ EmptyString →
     BackendGroups config !! WSBackendGroup config = None →
     Start_fails E config)
  ∧ ∀ g g' st, Start E config g = (g', Ok st) →
      sa_wsBackendGroup (st_srv st)
      = (if nonempty (WSBackendGroup config)
         then Some (WSBackendGroup config) else None)
      ∧ (WSBackendGroup config ≠ EmptyString →
         is_Some (st_backendGroups st !! WSBackendGroup config))
      ∧ ∀ host port, WSListenAndServe host port ∈ st_goroutines st →
          WSBackendGroup config ≠ EmptyString
          ∧ host = WSHost (Server_ config)
          ∧ port = WSPort (Server_ config) ∧ port ≠ 0.
Proof.
  split_and!.
  - intros Hnone Hport. apply Start_fails_build. intros rc lim.
    unfold Start_build.
    next_step as [] Hsender. next_step as [backendNames backendsByName] Hbs.
    next_step as backendGroups Hgroups. apply failed_bind_l.
    unfold chooseWSBackendGroup. rewrite Hnone. simpl.
    destruct (Z.eqb_spec (WSPort (Server_ config)) 0); done.
  - intros HE Hsome Hundef. apply Start_fails_build. intros rc lim.
    unfold Start_build.
    next_step as [] Hsender. next_step as [backendNames backendsByName] Hbs.
    next_step as backendGroups Hgroups. apply failed_bind_l.
    unfold chooseWSBackendGroup.
    destruct (WSBackendGroup config) as [|c name] eqn:Hname; [done |].
    cbn [nonempty].
    destruct (backendGroups !! String c name) as [bg|] eqn:Hbg; [| done].
    destruct (makeBackendGroups_Ok _ _ _ _ Hgroups) as [_ Hdom].
    assert (is_Some (backendGroups !! String c name)) as Hin by eauto.
    apply Hdom, (range_keys E) in Hin as [cfg Hcfg]; [| done]. congruence.
  - intros g g' st Hrun. start_inv Hrun. subst st. simpl.
    unfold chooseWSBackendGroup in Hws.
    bind_inv Hws as ws Hchoose. bind_inv Hws as [] Hport.
    injection Hws as <-. apply failIf_Ok in Hport.
    assert (ws = (if nonempty (WSBackendGroup config)
                  then Some (WSBackendGroup config) else None)
            ∧ (WSBackendGroup config ≠ EmptyString →
               is_Some (backendGroups !! WSBackendGroup config)))
      as [Hwsval Hpresent].
    { destruct (WSBackendGroup config) as [|c name]; simpl in *.
      - by injection Hchoose as <-.
      - destruct (backendGroups !! String c name) as [bg|] eqn:Hbg;
          [| discriminate Hchoose].
        injection Hchoose as <-. split; [done | eauto]. }
    split; [done |]. split.
    { intros Hne. apply createPollers_is_Some. by apply Hpresent. }
    intros host port Hin. unfold launchServers in Hin.
    rewrite !elem_of_appendIf, elem_of_nil in Hin.
    destruct Hin as [[[[] | [_ ?]] | [_ ?]] | [Hws Heq]]; [done | done |].
    injection Heq as -> ->.
    apply negb_true_iff, Z.eqb_neq in Hws.
    split; [| done].
    intros Hempty. rewrite Hempty in Hwsval. simpl in Hwsval. subst ws.
    simpl in Hport. apply Z.eqb_neq in Hws. by rewrite Hws in Hport.
Qed.

Lemma Start_ws_backend_group_witness :
  Start_fails exampleEnv (wsConfigFor EmptyString)
  ∧ Start_fails exampleEnv (wsConfigFor "missing")
  ∧ ∃ g' st,
      Start exampleEnv (wsConfigFor "main") defaultGlobals = (g', Ok st)
      ∧ sa_wsBackendGroup (st_srv st) = Some "main"
      ∧ is_Some (st_backendGroups st !! "main")
      ∧ WSListenAndServe "0.0.0.0" 8546 ∈ st_goroutines st.
Proof.
  split; [| split].
  - refine (proj1 (Start_ws_backend_group exampleEnv (wsConfigFor EmptyString))
              _ _); [reflexivity | discriminate].
  - refine (proj1 (proj2 (Start_ws_backend_group exampleEnv
                            (wsConfigFor "missing"))) _ _ _);
      [intros site A m; reflexivity | discriminate | reflexivity].
  - eexists _, _. split; [reflexivity |].
    destruct (Start_ws_backend_group exampleEnv (wsConfigFor "main"))
      as (_ & _ & Hok).
    destruct (Hok defaultGlobals _ _ eq_refl) as (Hws & Hpresent & _).
    split; [exact Hws |]. split; [apply Hpresent; discriminate |].
    apply list_elem_of_further, list_elem_of_here.
Defined.

(** ** Resolved authentication *)

Lemma resolveAuth_trace (E : Env) (config : Config)
    (auth : gmap string string) (resolved : gmap string string) :
  foldM (λ resolvedAuth '(secret, alias),
           resolvedSecret ← ReadFromEnvOrConfig E secret;
           Ok (<[resolvedSecret := alias]> resolvedAuth))
    (range E 206 _ auth) (∅ : gmap string string) = Ok resolved →
  (∀ rs alias, resolved !! rs = Some alias →
     ∃ secret, (secret, alias) ∈ range E 206 _ auth
               ∧ ReadFromEnvOrConfig E secret = Ok rs)
  ∧ (∀ secret alias, (secret, alias) ∈ range E 206 _ auth →
       ∃ rs, ReadFromEnvOrConfig E secret = Ok rs ∧ is_Some (resolved !! rs)).
Proof.
  intros Hrun.
  refine (foldM_prefix_ind
            (λ done (s : gmap string string),
               (∀ rs alias, s !! rs = Some alias →
                  ∃ secret, (secret, alias) ∈ done
                            ∧ ReadFromEnvOrConfig E secret = Ok rs)
               ∧ (∀ secret alias, (secret, alias) ∈ done →
                    ∃ rs, ReadFromEnvOrConfig E secret = Ok rs
                          ∧ is_Some (s !! rs)))
            _ _ _ _ _ _ Hrun).
  - split; [intros ??; by rewrite lookup_empty |].
    intros ?? Hin. by apply elem_of_nil in Hin.
  - intros done [secret alias] s1 s2 _ [IH1 IH2] Hstep.
    bind_inv Hstep as rs Hrs. injection Hstep as <-. split.
    + intros rs' alias'. rewrite lookup_insert. case_decide as Heq.
      * intros [= <-]. subst rs'. exists secret.
        split; [apply elem_of_app; right; by apply list_elem_of_singleton
               | done].
      * intros Hlook. destruct (IH1 rs' alias' Hlook) as (secret' & Hin & Hres).
        exists secret'. split; [apply elem_of_app; by left | done].
    + intros secret' alias' Hin. apply elem_of_app in Hin as [Hin | Hin].
      * destruct (IH2 secret' alias' Hin) as (rs' & Hres & Hsome).
        exists rs'. split; [done |]. rewrite lookup_insert.
        case_decide; [eauto | done].
      * apply list_elem_of_singleton in Hin. injection Hin as -> ->.
        exists rs. split; [done |]. rewrite lookup_insert_eq. eauto.
Qed.

(** X11. The authenticated paths of the server mirror the configured
    authentication map: they are absent exactly when the map is; every
    path is the resolution of a configured secret and carries that
    secret's alias; and the resolution of every configured secret is a
    path. *)
Theorem Start_authenticated_paths (E : Env) (config : Config)
    (g g' : Globals) (st : Started) :
  range_sound E →
  Start E config g = (g', Ok st) →
  match Authentication config with
  | None => sa_authenticatedPaths (st_srv st) = None
  | Some auth =>
      ∃ resolved,
        sa_authenticatedPaths (st_srv st) = Some resolved
        ∧ (∀ rs alias, resolved !! rs = Some alias →
             ∃ secret, auth !! secret = Some alias
                       ∧ ReadFromEnvOrConfig E secret = Ok rs)
        ∧ (∀ secret alias, auth !! secret = Some alias →
             ∃ rs, ReadFromEnvOrConfig E secret = Ok rs
                   ∧ is_Some (resolved !! rs))
  end.
Proof.
  intros HE Hrun. start_inv Hrun. subst st. simpl.
  unfold resolveAuth in Hresolved.
  destruct (Authentication config) as [auth|]; [| by injection Hresolved as <-].
  bind_inv Hresolved as resolved Hfold. injection Hresolved as <-.
  destruct (resolveAuth_trace E config auth resolved Hfold) as [Hfrom Hall].
  exists resolved. split; [done |]. split.
  - intros rs alias Hlook. destruct (Hfrom rs alias Hlook) as (secret & Hin & ?).
    exists secret. split; [by apply (range_elem_of E) in Hin | done].
  - intros secret alias Hlook. apply Hall with (alias := alias).
    by apply (range_elem_of E).
Qed.

Lemma Start_authenticated_paths_witness :
  ∃ g' st resolved,
    Start exampleEnv aliasNoneConfig defaultGlobals = (g', Ok st)
    ∧ sa_authenticatedPaths (st_srv st) = Some resolved
    ∧ ∀ secret alias,
        ({["s3cret" := "none"]} : gmap string string) !! secret = Some alias →
        ∃ rs, ReadFromEnvOrConfig exampleEnv secret = Ok rs
              ∧ is_Some (resolved !! rs).
Proof.
  eexists _, _.
  pose proof (Start_authenticated_paths exampleEnv aliasNoneConfig
                defaultGlobals _ _ (λ _ _ _, reflexivity _) eq_refl) as Hauth.
  destruct Hauth as (resolved & Hsrv & _ & Hall).
  exists resolved. split; [reflexivity |]. split; [exact Hsrv | exact Hall].
Defined.

(** ** Last-value caches *)

(** X12. With caching disabled [Start] creates no RPC cache and no
    last-value cache.  With caching enabled it dials the resolved
    block-sync URL and starts two last-value caches on that client, under
    the keys "lvc:block_number" and "lvc:gas_price"; both write to the
    store itself, while the RPC cache goes through the compression layer
    around that same store, and the readers of the RPC cache read these two
    last-value caches. *)
Theorem Start_last_value_caches (E : Env) (config : Config)
    (g g' : Globals) (st : Started) :
  Start E config g = (g', Ok st) →
  if cache_Enabled (Cache_ config) then
    ∃ url client rpcCache blockNumLVC gasPriceLVC,
      ReadFromEnvOrConfig E (BlockSyncRPCURL (Cache_ config)) = Ok url
      ∧ ethclient_Dial E url = Ok client
      ∧ sa_cache (st_srv st) = Some rpcCache
      ∧ sd_blockNumLVC (st_shutdownFunc st) = Some blockNumLVC
      ∧ sd_gasPriceLVC (st_shutdownFunc st) = Some gasPriceLVC
      ∧ lvc_key blockNumLVC = "lvc:block_number"
      ∧ lvc_key gasPriceLVC = "lvc:gas_price"
      ∧ lvc_started blockNumLVC = true ∧ lvc_started gasPriceLVC = true
      ∧ lvc_client blockNumLVC = client ∧ lvc_client gasPriceLVC = client
      ∧ lvc_cache gasPriceLVC = lvc_cache blockNumLVC
      ∧ rc_cache rpcCache = newCacheWithCompression (lvc_cache blockNumLVC)
      ∧ fn_lvc (rc_getLatestBlockNumFn rpcCache) = blockNumLVC
      ∧ fn_lvc (rc_getLatestGasPriceFn rpcCache) = gasPriceLVC
      ∧ rc_numBlockConfirmations rpcCache
        = NumBlockConfirmations (Cache_ config)
  else
    sa_cache (st_srv st) = None
    ∧ sd_blockNumLVC (st_shutdownFunc st) = None
    ∧ sd_gasPriceLVC (st_shutdownFunc st) = None.
Proof.
  intros Hrun. start_inv Hrun. subst st. simpl.
  unfold setupCache in Hcache.
  destruct (cache_Enabled (Cache_ config)); [| by injection Hcache as <- <- <-].
  bind_inv Hcache as [] Hurl. bind_inv Hcache as url Hsync.
  bind_inv Hcache as client Hdial. simpl in Hcache.
  injection Hcache as <- <- <-.
  eexists url, client, _, _, _. simpl. repeat split; done.
Qed.

Lemma Start_last_value_caches_witness :
  ∃ g' st blockNumLVC,
    Start exampleEnv redisConfig defaultGlobals = (g', Ok st)
    ∧ sd_blockNumLVC (st_shutdownFunc st) = Some blockNumLVC
    ∧ lvc_cache blockNumLVC
      = newRedisCache {| redis_url := "redis://cache:6379" |}
    ∧ lvc_client blockNumLVC = {| ec_url := "http://sequencer:8545" |}.
Proof.
  eexists _, _.
  pose proof (Start_last_value_caches exampleEnv redisConfig defaultGlobals
                _ _ eq_refl) as Hlvc.
  destruct Hlvc as (url & client & rpcCache & blockNumLVC & gasPriceLVC
                    & Hurl & Hdial & _ & Hb & _ & _ & _ & _ & _ & Hclient & _).
  exists blockNumLVC. split; [reflexivity |]. split; [exact Hb |].
  injection Hb as <-. split; [reflexivity |].
  injection Hurl as <-. injection Hdial as <-. exact Hclient.
Defined.

(** ** The package-level messages across runs *)

Lemma nonempty_true (s : string) : nonempty s = true ↔ s ≠ EmptyString.
Proof. by destruct s. Qed.

Lemma Start_validate_passes (E : Env) (config : Config) :
  range_sound E →
  Backends config ≠ ∅ → BackendGroups config ≠ ∅ →
  RPCMethodMappings config ≠ ∅ →
  (∀ auth, Authentication config = Some auth → auth !! "none" = None) →
  (URL (Redis config) = EmptyString ∧ UseRedis (RateLimit config) = false
   ∨ URL (Redis config) ≠ EmptyString
     ∧ ∃ rURL client,
         ReadFromEnvOrConfig E (URL (Redis config)) = Ok rURL
         ∧ NewRedisClient E rURL = Ok client) →
  ∃ redisClient,
    Start_validate E config
    = Ok (redisClient, chooseRateLimiter config redisClient).
Proof.
  intros HE Hb Hg Hm Hauth Hredis. unfold Start_validate.
  rewrite (proj2 (checkNonEmpty_Ok config)) by done.
  rewrite (proj2 (checkAuthKeys_Ok E config HE)) by done.
  unfold connectRedis.
  destruct Hredis as [[-> ->] | (Hurl & rURL & client & -> & Hclient)].
  - by exists None.
  - apply nonempty_true in Hurl. rewrite Hurl. simpl. rewrite Hclient.
    by exists (Some client).
Qed.

(** X13. When [Start] fails on one of the checks of lines 22-52 (no
    backends, no groups, no mappings, the authentication key "none", or
    [use_redis] without a Redis URL), the three package-level messages are
    left as they were.  When these checks and the Redis connection pass and
    [Start] then fails on the sender rate limit, each of the three messages
    has already been overwritten by the configured one where that is not
    empty; the error is the one about the limit when the limit is at most
    0, and the one about the interval otherwise. *)
Theorem Start_failure_and_globals (E : Env) (config : Config) (g : Globals) :
  range_sound E →
  (Backends config = ∅ ∨ BackendGroups config = ∅
   ∨ RPCMethodMappings config = ∅
   ∨ (∃ auth alias,
        Authentication config = Some auth ∧ auth !! "none" = Some alias)
   ∨ (URL (Redis config) = EmptyString
      ∧ UseRedis (RateLimit config) = true) →
   (Start E config g).1 = g ∧ failed (Start E config g).2)
  ∧ (Backends config ≠ ∅ → BackendGroups config ≠ ∅ →
     RPCMethodMappings config ≠ ∅ →
     (∀ auth, Authentication config = Some auth → auth !! "none" = None) →
     (URL (Redis config) = EmptyString ∧ UseRedis (RateLimit config) = false
      ∨ URL (Redis config) ≠ EmptyString
        ∧ ∃ rURL client,
            ReadFromEnvOrConfig E (URL (Redis config)) = Ok rURL
            ∧ NewRedisClient E rURL = Ok client) →
     srl_Enabled (SenderRateLimit config) = true →
     Limit (SenderRateLimit config) ≤ 0
     ∨ Interval (SenderRateLimit config) < 1000000000 →
     ErrOverRateLimit_Message (Start E config g).1
     = (if nonempty (rl_ErrorMessage (RateLimit config))
        then rl_ErrorMessage (RateLimit config)
        else ErrOverRateLimit_Message g)
     ∧ ErrMethodNotWhitelisted_Message (Start E config g).1
       = (if nonempty (WhitelistErrorMessage config)
          then WhitelistErrorMessage config
          else ErrMethodNotWhitelisted_Message g)
     ∧ ErrTooManyBatchRequests_Message (Start E config g).1
       = (if nonempty (batch_ErrorMessage (BatchConfig_ config))
          then batch_ErrorMessage (BatchConfig_ config)
          else ErrTooManyBatchRequests_Message g)
     ∧ (Start E config g).2
       = Error (errorString
                  (if Limit (SenderRateLimit config) <=? 0
                   then "limit in sender_rate_limit must be > 0"
                   else "interval in sender_rate_limit must be >= 1s"))).
Proof.
  intros HE. split.
  - intros Hbad.
    assert (failed (Start_validate E config)) as Hfail.
    { unfold Start_validate.
      destruct (checkNonEmpty config) as [[]|e] eqn:Hne; [| done].
      apply checkNonEmpty_Ok in Hne as (? & ? & ?).
      destruct Hbad as [? | [? | [? | Hbad]]]; [done.. |]. simpl.
      destruct (checkAuthKeys E config) as [[]|e] eqn:Hauth; [| done].
      pose proof (proj1 (checkAuthKeys_Ok E config HE) Hauth) as Hkeys.
      destruct Hbad as [(auth & alias & Hsome & Hnone) | [Hurl Huse]].
      { specialize (Hkeys auth Hsome). congruence. }
      simpl. unfold connectRedis. rewrite Hurl, Huse. done. }
    unfold Start.
    by destruct (Start_validate E config) as [[rc lim]|e].
  - intros Hb Hg Hm Hauth Hredis Hon Hbad.
    destruct (Start_validate_passes E config HE Hb Hg Hm Hauth Hredis)
      as [rc Hval].
    unfold Start. rewrite Hval. cbn [fst snd setErrorMessages
      ErrOverRateLimit_Message ErrMethodNotWhitelisted_Message
      ErrTooManyBatchRequests_Message].
    split; [done |]. split; [done |]. split; [done |].
    unfold Start_build, checkSenderRateLimit, time_Second. rewrite Hon.
    destruct (Z.leb_spec (Limit (SenderRateLimit config)) 0); [done |].
    destruct (Z.ltb_spec (Interval (SenderRateLimit config)) 1000000000);
      [done | lia].
Qed.

Lemma Start_failure_and_globals_witness :
  is_Ok (Start exampleEnv messageConfig defaultGlobals).2 = true
  ∧ ErrOverRateLimit_Message defaultGlobals = "over rate limit"
  ∧ ErrOverRateLimit_Message
      (Start exampleEnv zeroLimitMessageConfig defaultGlobals).1
    = "slow down"
  ∧ (Start exampleEnv zeroLimitMessageConfig defaultGlobals).2
    = Error (errorString "limit in sender_rate_limit must be > 0")
  ∧ (Start exampleEnv secretNoneConfig defaultGlobals).1 = defaultGlobals.
Proof.
  split; [reflexivity |]. split; [reflexivity |].
  destruct (Start_failure_and_globals exampleEnv zeroLimitMessageConfig
              defaultGlobals (λ _ _ _, reflexivity _)) as [_ Hlate].
  destruct Hlate as (Hmsg & _ & _ & Herr).
  - discriminate.
  - discriminate.
  - discriminate.
  - intros auth Hauth. discriminate Hauth.
  - left. split; reflexivity.
  - reflexivity.
  - left. vm_compute. discriminate.
  - split; [exact Hmsg |]. split; [exact Herr |].
    refine (proj1 (proj1 (Start_failure_and_globals exampleEnv secretNoneConfig
                            defaultGlobals (λ _ _ _, reflexivity _)) _)).
    right. right. right. left.
    exists {["none" := "admin"]}, "admin". split; reflexivity.
Defined.

(** X14. Messages stick across runs: after two successful runs of [Start]
    in a row, each package-level message is the one of the second
    configuration if that is set, else the one of the first configuration
    if that is set, else the one from before the first run.  An empty
    message in the second configuration does not bring back the original
    text. *)
Theorem Start_twice_messages (E1 E2 : Env) (config1 config2 : Config)
    (g g1 g2 : Globals) (st1 st2 : Started) :
  Start E1 config1 g = (g1, Ok st1) →
  Start E2 config2 g1 = (g2, Ok st2) →
  ErrOverRateLimit_Message g2
  = (if nonempty (rl_ErrorMessage (RateLimit config2))
     then rl_ErrorMessage (RateLimit config2)
     else if nonempty (rl_ErrorMessage (RateLimit config1))
          then rl_ErrorMessage (RateLimit config1)
          else ErrOverRateLimit_Message g)
  ∧ ErrMethodNotWhitelisted_Message g2
    = (if nonempty (WhitelistErrorMessage config2)
       then WhitelistErrorMessage config2
       else if nonempty (WhitelistErrorMessage config1)
            then WhitelistErrorMessage config1
            else ErrMethodNotWhitelisted_Message g)
  ∧ ErrTooManyBatchRequests_Message g2
    = (if nonempty (batch_ErrorMessage (BatchConfig_ config2))
       then batch_ErrorMessage (BatchConfig_ config2)
       else if nonempty (batch_ErrorMessage (BatchConfig_ config1))
            then batch_ErrorMessage (BatchConfig_ config1)
            else ErrTooManyBatchRequests_Message g).
Proof.
  intros Hrun1 Hrun2.
  apply Start_Ok_inv in Hrun1 as (? & ? & ? & ? & ? & ? & ? & ? & ? & Hrun1).
  apply Start_Ok_inv in Hrun2 as (? & ? & ? & ? & ? & ? & ? & ? & ? & Hrun2).
  cbv zeta in Hrun1, Hrun2.
  destruct Hrun1 as (_ & _ & _ & -> & _).
  destruct Hrun2 as (_ & _ & _ & -> & _).
  done.
Qed.

Lemma Start_twice_messages_witness :
  ∃ g1 st1 g2 st2,
    Start exampleEnv messageConfig defaultGlobals = (g1, Ok st1)
    ∧ Start exampleEnv plainConfig g1 = (g2, Ok st2)
    ∧ ErrOverRateLimit_Message g2 = "slow down".
Proof.
  eexists _, _, _, _. split; [reflexivity |]. split; [reflexivity |].
  refine (proj1 (Start_twice_messages exampleEnv exampleEnv messageConfig
                   plainConfig defaultGlobals _ _ _ _ eq_refl eq_refl)).
Defined.

(** ** The server and the pollers *)

(** X15. The pollers are attached after the server is constructed: in the
    group store [NewServer] is called with, no group has a poller yet, and
    each of its groups is the group of the returned store under the same
    key, with the same name and backends. *)
Theorem Start_server_groups (E : Env) (config : Config) (g g' : Globals)
    (st : Started) (bgName : string) (bg : BackendGroup) :
  Start E config g = (g', Ok st) →
  sa_backendGroups (st_srv st) !! bgName = Some bg →
  Consensus bg = None ∧ Name bg = bgName
  ∧ ∃ bg', st_backendGroups st !! bgName = Some bg'
           ∧ Name bg' = bgName ∧ bg_backends bg' = bg_backends bg.
Proof.
  intros Hrun Hbg. start_inv Hrun. subst st. simpl in *.
  destruct (makeBackendGroups_Ok _ _ _ _ Hgroups) as [Hfresh _].
  destruct (Hfresh bgName bg Hbg) as (Hname & Hnone & _).
  split; [done |]. split; [done |].
  unfold createPollers. rewrite createPoller_fold_lookup, Hbg.
  case_decide; simpl; eexists; (split; [done |]);
    by rewrite ?withPoller_name, ?withPoller_backends.
Qed.

Lemma Start_server_groups_witness :
  ∃ g' st bg,
    Start exampleEnv plainConfig defaultGlobals = (g', Ok st)
    ∧ sa_backendGroups (st_srv st) !! "main" = Some bg
    ∧ Consensus bg = None.
Proof.
  eexists _, _, _. split; [reflexivity |]. split; [reflexivity |].
  refine (proj1 (Start_server_groups exampleEnv plainConfig defaultGlobals
                   _ _ "main" _ eq_refl eq_refl)).
Defined.

(** ** Backend options *)

Lemma elem_of_appendIf_ne {A} (cond : bool) (o x : A) (opts : list A) :
  x ≠ o → x ∈ appendIf cond o opts ↔ x ∈ opts.
Proof.
  intros Hne. rewrite elem_of_appendIf.
  split; [intros [? | [_ ?]]; done | by left].
Qed.

Lemma elem_of_snoc_ne {A} (o x : A) (opts : list A) :
  x ≠ o → x ∈ opts ++ [o] ↔ x ∈ opts.
Proof.
  intros Hne. rewrite elem_of_app, list_elem_of_singleton.
  split; [intros [? | ?]; done | by left].
Qed.

(** Membership in a list of options, reduced to the one position where an
    option of the same kind can have been appended. *)
Ltac peel_opts :=
  repeat first
    [ rewrite elem_of_appendIf_ne by discriminate
    | rewrite elem_of_snoc_ne by discriminate
    | rewrite elem_of_appendIf
    | rewrite elem_of_app, list_elem_of_singleton ];
  rewrite ?elem_of_nil.

(** X16. The options a backend is built with: each one is passed exactly
    when its setting is present (non-zero, positive, non-empty or true, as
    the source tests it) and carries the configured value.  Basic
    authentication is keyed on the password alone, with the password
    resolved and the user name taken as it is; the proxy IP and the
    skip-peer-count flag are always passed. *)
Theorem configureBackend_options (E : Env) (config : Config)
    (lim : BackendRateLimiter) (sem : Semaphore) (name : string)
    (cfg : BackendConfig) (back : Backend) :
  configureBackend E config lim sem name cfg = Ok back →
  (∀ d, WithTimeout d ∈ b_opts back ↔
        ResponseTimeoutSeconds (BackendOptions_ config) ≠ 0
        ∧ d = secondsToDuration
                (ResponseTimeoutSeconds (BackendOptions_ config)))
  ∧ (∀ n, WithMaxRetries n ∈ b_opts back ↔
          MaxRetries (BackendOptions_ config) ≠ 0
          ∧ n = MaxRetries (BackendOptions_ config))
  ∧ (∀ n, WithMaxResponseSize n ∈ b_opts back ↔
          MaxResponseSizeBytes (BackendOptions_ config) ≠ 0
          ∧ n = MaxResponseSizeBytes (BackendOptions_ config))
  ∧ (∀ d, WithOutOfServiceDuration d ∈ b_opts back ↔
          OutOfServiceSeconds (BackendOptions_ config) ≠ 0
          ∧ d = secondsToDuration
                  (OutOfServiceSeconds (BackendOptions_ config)))
  ∧ (∀ d, WithMaxDegradedLatencyThreshold d ∈ b_opts back ↔
          0 < MaxDegradedLatencyThreshold (BackendOptions_ config)
          ∧ d = MaxDegradedLatencyThreshold (BackendOptions_ config))
  ∧ (∀ d, WithMaxLatencyThreshold d ∈ b_opts back ↔
          0 < MaxLatencyThreshold (BackendOptions_ config)
          ∧ d = MaxLatencyThreshold (BackendOptions_ config))
  ∧ (∀ r, WithMaxErrorRateThreshold r ∈ b_opts back ↔
          float64_gt_zero (MaxErrorRateThreshold (BackendOptions_ config))
          = true
          ∧ r = MaxErrorRateThreshold (BackendOptions_ config))
  ∧ (∀ n, WithMaxRPS n ∈ b_opts back ↔ MaxRPS cfg ≠ 0 ∧ n = MaxRPS cfg)
  ∧ (∀ n, WithMaxWSConns n ∈ b_opts back ↔
          MaxWSConns cfg ≠ 0 ∧ n = MaxWSConns cfg)
  ∧ (∀ u p, WithBasicAuth u p ∈ b_opts back ↔
            Password cfg ≠ EmptyString ∧ u = Username cfg
            ∧ ReadFromEnvOrConfig E (Password cfg) = Ok p)
  ∧ (∀ tls, WithTLSConfig tls ∈ b_opts back ↔
            configureBackendTLS E cfg = Ok (Some tls))
  ∧ (WithStrippedTrailingXFF ∈ b_opts back ↔ StripTrailingXFF cfg = true)
  ∧ (∀ ip, WithProxydIP ip ∈ b_opts back ↔ ip = os_Getenv E "PROXYD_IP")
  ∧ (∀ skip, WithSkipPeerCountCheck skip ∈ b_opts back ↔
             skip = SkipPeerCountCheck cfg).
Proof.
  unfold configureBackend. intros H.
  bind_inv H as rpcURL Hrpc. bind_inv H as wsURL Hws.
  bind_inv H as [] Hurl. bind_inv H as opts Hopts. bind_inv H as tls Htls.
  injection H as <-. cbn [b_opts]. rewrite Htls.
  destruct (Password cfg) as [|c pw] eqn:Hpw; cbn [nonempty] in Hopts;
    [| bind_inv Hopts as p Hp]; injection Hopts as <-;
    destruct tls as [t|];
    (split_and!; intros; peel_opts;
     rewrite ?negb_true_iff, ?Z.eqb_neq, ?Z.ltb_lt;
     (split;
      [ intros Hin; decompose [and or] Hin; simplify_eq; done
      | intros Hin; decompose [and] Hin; simplify_eq;
        first [by auto | right; congruence] ])).
Qed.

Lemma configureBackend_options_witness :
  ∃ back,
    configureBackend exampleEnv plainConfig noopBackendRateLimiter
      (NewWeighted 64) "node1" authBackend = Ok back
    ∧ WithBasicAuth "alice" EmptyString ∈ b_opts back
    ∧ WithSkipPeerCountCheck true ∈ b_opts back.
Proof.
  eexists. split; [reflexivity |].
  destruct (configureBackend_options exampleEnv plainConfig
              noopBackendRateLimiter (NewWeighted 64) "node1" authBackend
              _ eq_refl)
    as (_ & _ & _ & _ & _ & _ & _ & _ & _ & Hauth & _ & _ & _ & Hskip).
  split.
  - apply Hauth. split; [discriminate |]. split; reflexivity.
  - apply Hskip. reflexivity.
Defined.

(** ** Failures of the collaborators *)

(** X17. A configured Redis URL must be usable even when nothing asks for
    Redis: if resolving it or connecting to it fails, [Start] fails,
    whatever the rate-limit and cache settings are. *)
Theorem Start_fails_on_redis_failure (E : Env) (config : Config) :
  URL (Redis config) ≠ EmptyString →
  failed (ReadFromEnvOrConfig E (URL (Redis config)))
  ∨ (∃ rURL, ReadFromEnvOrConfig E (URL (Redis config)) = Ok rURL
             ∧ failed (NewRedisClient E rURL)) →
  Start_fails E config.
Proof.
  intros Hurl Hfail. apply Start_fails_validate. unfold Start_validate.
  apply failed_bind_r. intros [] _. apply failed_bind_r. intros [] _.
  apply failed_bind_l. unfold connectRedis. apply failed_bind_l.
  apply nonempty_true in Hurl. rewrite Hurl.
  destruct Hfail as [Hres | (rURL & -> & Hclient)].
  - by apply failed_bind_l.
  - simpl. by apply failed_bind_l.
Qed.

Lemma Start_fails_on_redis_failure_witness :
  Start_fails noRedisEnv idleRedisConfig.
Proof.
  apply (Start_fails_on_redis_failure noRedisEnv idleRedisConfig).
  - discriminate.
  - right. exists "redis://cache:6379". split; reflexivity.
Defined.

(** X18. Every configured backend is built, whether or not a group lists
    it: if for one of them the WS URL or a non-empty password cannot be
    resolved, or its TLS configuration cannot be created, [Start] fails. *)
Theorem Start_fails_on_backend_failure (E : Env) (config : Config)
    (name : string) (cfg : BackendConfig) :
  range_sound E →
  Backends config !! name = Some cfg →
  failed (ReadFromEnvOrConfig E (RPCURL cfg))
  ∨ failed (ReadFromEnvOrConfig E (WSURL cfg))
  ∨ (Password cfg ≠ EmptyString
     ∧ failed (ReadFromEnvOrConfig E (Password cfg)))
  ∨ failed (configureBackendTLS E cfg) →
  Start_fails E config.
Proof.
  intros HE Hcfg Hfail. apply Start_fails_build. intros rc lim.
  unfold Start_build. next_step as [] Hsender. cbv zeta.
  apply failed_bind_l. unfold configureBackends.
  apply (foldM_failed _ _ (name, cfg)); [by apply (range_elem_of E) |].
  intros [names byName]. apply failed_bind_l. unfold configureBackend.
  destruct Hfail as [Hrpc | [Hws | [[Hpw Hres] | Htls]]].
  - by apply failed_bind_l.
  - apply failed_bind_r. intros rpcURL _. by apply failed_bind_l.
  - apply failed_bind_r. intros rpcURL _. apply failed_bind_r. intros wsURL _.
    apply failed_bind_r. intros [] _. apply failed_bind_l.
    apply nonempty_true in Hpw. rewrite Hpw. by apply failed_bind_l.
  - apply failed_bind_r. intros rpcURL _. apply failed_bind_r. intros wsURL _.
    apply failed_bind_r. intros [] _. apply failed_bind_r. intros opts _.
    by apply failed_bind_l.
Qed.

Lemma Start_fails_on_backend_failure_witness :
  Start_fails
    (with_Dial
       {| range := λ _ A m, map_to_list m;
          ReadFromEnvOrConfig := exampleReadFromEnvOrConfig;
          NewRedisClient := λ url, Ok {| redis_url := url |};
          CreateTLSClient := λ _, Error (errorString "no such file");
          ParseKeyPair := λ c k, Ok {| certFile := c; keyFile := k |};
          ethclient_Dial := λ url, Ok {| ec_url := url |};
          NewServer_error := λ _, None;
          os_Getenv := exampleGetenv |}
       (λ url, Ok {| ec_url := url |}))
    (exampleConfig
       (<["spare" := {| Username := EmptyString; Password := EmptyString;
                        RPCURL := "https://spare:8545"; WSURL := EmptyString;
                        MaxRPS := 0; MaxWSConns := 0;
                        CAFile := "ca.pem"; ClientCertFile := EmptyString;
                        ClientKeyFile := EmptyString;
                        StripTrailingXFF := false;
                        SkipPeerCountCheck := false |}]> twoBackends)
       twoGroups twoMappings None EmptyString
       noRateLimit noSenderRateLimit noCache 0).
Proof.
  eapply (Start_fails_on_backend_failure _ _ "spare").
  - intros site A m. reflexivity.
  - reflexivity.
  - right. right. right. reflexivity.
Defined.

(** ** Collaborators that are not called *)

(** X19. [Start] dials the chain client only for the cache and connects to
    Redis only when a Redis URL is configured: with caching disabled its
    outcome does not depend on [ethclient.Dial], and with an empty Redis
    URL it does not depend on [NewRedisClient]. *)
Theorem Start_unused_collaborators (E : Env) (config : Config) (g : Globals) :
  (cache_Enabled (Cache_ config) = false →
   ∀ dial, Start (with_Dial E dial) config g = Start E config g)
  ∧ (URL (Redis config) = EmptyString →
     ∀ newClient,
       Start (with_NewRedisClient E newClient) config g = Start E config g).
Proof.
  split.
  - intros Hoff dial. unfold Start.
    change (Start_validate (with_Dial E dial) config)
      with (Start_validate E config).
    destruct (Start_validate E config) as [[rc lim]|e]; [| done].
    f_equal. unfold Start_build, setupCache. rewrite Hoff. done.
  - intros Hurl newClient. unfold Start, Start_validate, connectRedis.
    rewrite Hurl. done.
Qed.

Lemma Start_unused_collaborators_witness :
  Start (with_Dial exampleEnv (λ _, Error (errorString "no route to host")))
    plainConfig defaultGlobals
  = Start exampleEnv plainConfig defaultGlobals.
Proof.
  apply (Start_unused_collaborators exampleEnv plainConfig defaultGlobals).
  reflexivity.
Defined.

(** ** Independence of the iteration order *)

Lemma agree_intro {A} (R : A → A → Prop) (r1 r2 : Result A) :
  is_Ok r1 = is_Ok r2 →
  (∀ a b, r1 = Ok a → r2 = Ok b → R a b) →
  agree R r1 r2.
Proof. destruct r1, r2; simpl; intros Hok HR; try done. by apply HR. Qed.

Lemma agree_refl {A} (r : Result A) : agree eq r r.
Proof. by destruct r. Qed.

Lemma agree_bind {A B} (R : A → A → Prop) (S : B → B → Prop)
    (m1 m2 : Result A) (k1 k2 : A → Result B) :
  agree R m1 m2 →
  (∀ a b, m1 = Ok a → m2 = Ok b → R a b → agree S (k1 a) (k2 b)) →
  agree S (m1 ≫= k1) (m2 ≫= k2).
Proof. destruct m1, m2; simpl; intros HR Hk; try done. by apply Hk. Qed.

(** Whether a loop fails does not depend on the order of its elements when
    the failure of its body does not depend on the accumulator. *)
Lemma foldM_is_Ok {A S} (f : S → A → Result S) (l : list A) (s0 s : S) :
  (∀ x s1 s2, is_Ok (f s1 x) = is_Ok (f s2 x)) →
  is_Ok (foldM f l s) = forallb (λ x, is_Ok (f s0 x)) l.
Proof.
  intros Hindep. revert s. induction l as [|x l IH]; intros s; [done |].
  simpl. rewrite (Hindep x s0 s).
  destruct (f s x) as [s'|e]; simpl; [apply IH | done].
Qed.

Lemma forallb_Permutation {A} (p : A → bool) (l1 l2 : list A) :
  l1 ≡ₚ l2 → forallb p l1 = forallb p l2.
Proof.
  induction 1 as [|x l1 l2 _ IH|x y l|l1 l2 l3 _ IH1 _ IH2]; simpl.
  - done.
  - by rewrite IH.
  - by destruct (p x), (p y).
  - by rewrite IH1.
Qed.

Lemma foldM_is_Ok_Permutation {A S} (f : S → A → Result S)
    (l1 l2 : list A) (s1 s2 : S) :
  (∀ x s s', is_Ok (f s x) = is_Ok (f s' x)) →
  l1 ≡ₚ l2 → is_Ok (foldM f l1 s1) = is_Ok (foldM f l2 s2).
Proof.
  intros Hindep Hperm.
  rewrite (foldM_is_Ok f l1 s1 s1 Hindep), (foldM_is_Ok f l2 s1 s2 Hindep).
  by apply forallb_Permutation.
Qed.

Lemma range_Permutation (E : Env) (order : Z → ∀ A, gmap string A → list (string * A))
    (site : Z) {A} (m : gmap string A) :
  range_sound E → range_sound (with_range E order) →
  order site A m ≡ₚ range E site A m.
Proof.
  intros HE HE'. rewrite (HE site A m). apply (HE' site A m).
Qed.

(** The backends, as a function of the configuration alone. *)
Lemma configureBackends_lookup (E : Env) (config : Config)
    (lim : BackendRateLimiter) (sem : Semaphore)
    (backendNames : list string) (backendsByName : gmap string Backend)
    (name : string) (back : Backend) :
  range_sound E →
  configureBackends E config lim sem = Ok (backendNames, backendsByName) →
  backendsByName !! name = Some back ↔
  ∃ cfg, Backends config !! name = Some cfg
         ∧ configureBackend E config lim sem name cfg = Ok back.
Proof.
  intros HE Hrun.
  destruct (configureBackends_trace _ _ _ _ _ _ Hrun) as (Hnames & Htrace & Hall).
  split.
  - intros Hlook. destruct (Htrace name back Hlook) as (cfg & Hin & Hcfg).
    exists cfg. split; [by apply (range_elem_of E) in Hin | done].
  - intros (cfg & Hcfg & Hback).
    destruct (Hall name) as [back' Hback'].
    { rewrite Hnames. apply (range_keys E); [done | eauto]. }
    destruct (Htrace name back' Hback') as (cfg' & Hin & Hcfg').
    rewrite (range_lookup_unique E 98 _ name cfg' cfg HE Hin Hcfg) in Hcfg'.
    congruence.
Qed.

(** The group store before the pollers, as a function of the configuration
    and the backends. *)
Lemma makeBackendGroups_lookup_iff (E : Env) (config : Config)
    (backendsByName : gmap string Backend)
    (backendGroups : gmap string BackendGroup)
    (bgName : string) (bg : BackendGroup) :
  range_sound E →
  makeBackendGroups E config backendsByName = Ok backendGroups →
  backendGroups !! bgName = Some bg ↔
  ∃ bgcfg backends,
    BackendGroups config !! bgName = Some bgcfg
    ∧ groupBackends backendsByName (bg_Backends bgcfg) = Ok backends
    ∧ bg = {| Name := bgName; bg_backends := backends; Consensus := None |}.
Proof.
  intros HE Hrun.
  destruct (makeBackendGroups_Ok _ _ _ _ Hrun) as [Hfresh Hdom].
  assert (∀ bg', backendGroups !! bgName = Some bg' →
            ∃ bgcfg backends,
              BackendGroups config !! bgName = Some bgcfg
              ∧ groupBackends backendsByName (bg_Backends bgcfg) = Ok backends
              ∧ bg' = {| Name := bgName; bg_backends := backends;
                         Consensus := None |}) as Hto.
  { intros bg' Hlook.
    destruct (makeBackendGroups_trace _ _ _ _ Hrun bgName bg' Hlook)
      as (bgcfg & Hin & Hbs).
    destruct (Hfresh bgName bg' Hlook) as (Hname & Hnone & _).
    exists bgcfg, (bg_backends bg').
    split; [by apply (range_elem_of E) in Hin |]. split; [done |].
    destruct bg'; simpl in *; by subst. }
  split; [apply Hto |].
  intros (bgcfg & backends & Hcfg & Hbs & ->).
  destruct (proj2 (Hdom bgName)) as [bg' Hbg'].
  { apply (range_keys E); [done | eauto]. }
  destruct (Hto bg' Hbg') as (bgcfg' & backends' & Hcfg' & Hbs' & ->).
  rewrite Hbg'. repeat f_equal. congruence.
Qed.

(** The authenticated paths, as a function of the configuration when no
    two secrets resolve to the same string. *)
Lemma resolveAuth_lookup (E : Env) (config : Config)
    (auth resolved : gmap string string) (rs alias : string) :
  range_sound E → distinct_paths E config →
  Authentication config = Some auth →
  resolveAuth E config = Ok (Some resolved) →
  resolved !! rs = Some alias ↔
  ∃ secret, auth !! secret = Some alias
            ∧ ReadFromEnvOrConfig E secret = Ok rs.
Proof.
  intros HE Hinj Hauth Hrun. unfold resolveAuth in Hrun. rewrite Hauth in Hrun.
  bind_inv Hrun as resolved' Hfold. injection Hrun as ->.
  destruct (resolveAuth_trace E config auth resolved Hfold) as [Hfrom Hall].
  split.
  - intros Hlook. destruct (Hfrom rs alias Hlook) as (secret & Hin & Hres).
    exists secret. split; [by apply (range_elem_of E) in Hin | done].
  - intros (secret & Hsecret & Hres).
    destruct (Hall secret alias) as (rs' & Hres' & [alias' Halias']).
    { by apply (range_elem_of E). }
    assert (rs' = rs) as -> by congruence.
    destruct (Hfrom rs alias' Halias') as (secret' & Hin' & Hres'').
    apply (range_elem_of E) in Hin'; [| done].
    assert (secret' = secret) as ->.
    { apply (Hinj auth secret' secret rs); eauto. }
    congruence.
Qed.

Lemma checkAuthKeys_order (E : Env)
    (order : Z → ∀ A, gmap string A → list (string * A)) (config : Config) :
  range_sound E → range_sound (with_range E order) →
  agree eq (checkAuthKeys (with_range E order) config) (checkAuthKeys E config).
Proof.
  intros HE HE'. unfold checkAuthKeys.
  destruct (Authentication config) as [auth|]; [| done].
  apply agree_intro; [| by intros [] []].
  apply foldM_is_Ok_Permutation; [by intros [k v] [] [] |].
  by apply range_Permutation.
Qed.

Lemma configureBackends_order (E : Env)
    (order : Z → ∀ A, gmap string A → list (string * A)) (config : Config)
    (lim : BackendRateLimiter) (sem : Semaphore) :
  range_sound E → range_sound (with_range E order) →
  agree (λ r1 r2 : list string * gmap string Backend,
           r1.1 ≡ₚ r2.1 ∧ r1.2 = r2.2)
    (configureBackends (with_range E order) config lim sem)
    (configureBackends E config lim sem).
Proof.
  intros HE HE'. apply agree_intro.
  - unfold configureBackends.
    apply (foldM_is_Ok_Permutation
             (λ '(backendNames, backendsByName) '(name, cfg),
                back ← configureBackend E config lim sem name cfg;
                Ok (backendNames ++ [name], <[name := back]> backendsByName))).
    + intros [name cfg] [n1 b1] [n2 b2]. simpl.
      by destruct (configureBackend E config lim sem name cfg).
    + by apply range_Permutation.
  - intros [n1 b1] [n2 b2] Hrun1 Hrun2. simpl. split.
    + destruct (configureBackends_trace _ _ _ _ _ _ Hrun1) as (-> & _).
      destruct (configureBackends_trace _ _ _ _ _ _ Hrun2) as (-> & _).
      apply fmap_Permutation. by apply (range_Permutation E order 98).
    + apply map_eq. intros name. apply option_eq. intros back.
      rewrite (configureBackends_lookup _ _ _ _ _ _ name back HE' Hrun1).
      rewrite (configureBackends_lookup _ _ _ _ _ _ name back HE Hrun2).
      done.
Qed.

Lemma makeBackendGroups_order (E : Env)
    (order : Z → ∀ A, gmap string A → list (string * A)) (config : Config)
    (backendsByName : gmap string Backend) :
  range_sound E → range_sound (with_range E order) →
  agree eq (makeBackendGroups (with_range E order) config backendsByName)
    (makeBackendGroups E config backendsByName).
Proof.
  intros HE HE'. apply agree_intro.
  - unfold makeBackendGroups.
    apply foldM_is_Ok_Permutation; [| by apply range_Permutation].
    intros [bgName bgcfg] s1 s2. simpl.
    by destruct (groupBackends backendsByName (bg_Backends bgcfg)).
  - intros groups1 groups2 Hrun1 Hrun2.
    apply map_eq. intros bgName. apply option_eq. intros bg.
    rewrite (makeBackendGroups_lookup_iff _ _ _ _ bgName bg HE' Hrun1).
    rewrite (makeBackendGroups_lookup_iff _ _ _ _ bgName bg HE Hrun2).
    done.
Qed.

Lemma checkMethodMappings_order (E : Env)
    (order : Z → ∀ A, gmap string A → list (string * A)) (config : Config)
    (backendGroups : gmap string BackendGroup) :
  range_sound E → range_sound (with_range E order) →
  agree eq (checkMethodMappings (with_range E order) config backendGroups)
    (checkMethodMappings E config backendGroups).
Proof.
  intros HE HE'. apply agree_intro; [| by intros [] []].
  unfold checkMethodMappings.
  apply foldM_is_Ok_Permutation; [| by apply range_Permutation].
  by intros [method bg] [] [].
Qed.

Lemma resolveAuth_order (E : Env)
    (order : Z → ∀ A, gmap string A → list (string * A)) (config : Config) :
  range_sound E → range_sound (with_range E order) →
  distinct_paths E config →
  agree eq (resolveAuth (with_range E order) config) (resolveAuth E config).
Proof.
  intros HE HE' Hinj.
  destruct (Authentication config) as [auth|] eqn:Hauth.
  2:{ unfold resolveAuth. by rewrite Hauth. }
  apply agree_intro.
  - unfold resolveAuth. rewrite Hauth.
    assert (∀ (r : Result (gmap string string)),
              is_Ok (r ≫= λ resolvedAuth, Ok (Some resolvedAuth)) = is_Ok r)
      as Hbind by (by intros []).
    rewrite !Hbind.
    apply (foldM_is_Ok_Permutation
             (λ resolvedAuth '(secret, alias),
                resolvedSecret ← ReadFromEnvOrConfig E secret;
                Ok (<[resolvedSecret := alias]> resolvedAuth)));
      [| by apply range_Permutation].
    intros [secret alias] s1 s2. simpl.
    by destruct (ReadFromEnvOrConfig E secret).
  - intros r1 r2 Hrun1 Hrun2.
    assert (∃ resolved1, r1 = Some resolved1) as [resolved1 ->].
    { unfold resolveAuth in Hrun1. rewrite Hauth in Hrun1.
      bind_inv Hrun1 as r Hr. injection Hrun1 as <-. eauto. }
    assert (∃ resolved2, r2 = Some resolved2) as [resolved2 ->].
    { unfold resolveAuth in Hrun2. rewrite Hauth in Hrun2.
      bind_inv Hrun2 as r Hr. injection Hrun2 as <-. eauto. }
    f_equal. apply map_eq. intros rs. apply option_eq. intros alias.
    rewrite (resolveAuth_lookup (with_range E order) config auth resolved1
               rs alias HE' Hinj Hauth Hrun1).
    rewrite (resolveAuth_lookup E config auth resolved2 rs alias HE Hinj
               Hauth Hrun2).
    done.
Qed.

Lemma createPollers_order (E : Env)
    (order : Z → ∀ A, gmap string A → list (string * A)) (config : Config)
    (backendGroups : gmap string BackendGroup) :
  range_sound E → range_sound (with_range E order) →
  createPollers (with_range E order) config backendGroups
  = createPollers E config backendGroups.
Proof.
  intros HE HE'. apply map_eq. intros bgName.
  by rewrite (createPollers_lookup (with_range E order)),
    (createPollers_lookup E).
Qed.

Lemma Start_validate_order (E : Env)
    (order : Z → ∀ A, gmap string A → list (string * A)) (config : Config) :
  range_sound E → range_sound (with_range E order) →
  agree eq (Start_validate (with_range E order) config)
    (Start_validate E config).
Proof.
  intros HE HE'. unfold Start_validate.
  apply (agree_bind eq); [apply agree_refl |]. intros [] [] _ _ _.
  apply (agree_bind eq); [by apply checkAuthKeys_order |]. intros [] [] _ _ _.
  apply agree_refl.
Qed.

Lemma Start_build_order (E : Env)
    (order : Z → ∀ A, gmap string A → list (string * A)) (config : Config)
    (redisClient : option RedisClient) (lim : BackendRateLimiter) :
  range_sound E → range_sound (with_range E order) →
  distinct_paths E config →
  agree same_outcome
    (Start_build (with_range E order) config redisClient lim)
    (Start_build E config redisClient lim).
Proof.
  intros HE HE' Hinj. unfold Start_build.
  apply (agree_bind eq); [apply agree_refl |]. intros [] [] _ _ _. cbv zeta.
  eapply agree_bind; [by apply configureBackends_order |].
  intros [names1 byName] [names2 byName2] _ _ [Hperm Heq].
  simpl in Hperm, Heq. subst byName2.
  apply (agree_bind eq); [by apply makeBackendGroups_order |].
  intros backendGroups ? _ _ <-.
  apply (agree_bind eq); [apply agree_refl |]. intros ws ? _ _ <-.
  apply (agree_bind eq); [by apply checkMethodMappings_order |].
  intros [] [] _ _ _.
  apply (agree_bind eq); [by apply resolveAuth_order |].
  intros resolvedAuth ? _ _ <-.
  apply (agree_bind eq); [apply agree_refl |].
  intros [[rpcCache blockNumLVC] gasPriceLVC] ? _ _ <-.
  apply (agree_bind eq); [apply agree_refl |]. intros srv ? _ _ <-.
  simpl. unfold same_outcome. simpl.
  rewrite (createPollers_order E order) by done. by repeat split.
Qed.

(** X20. The outcome of [Start] does not depend on the order in which Go
    visits the maps, provided no two authentication secrets resolve to the
    same string: for every two orders, [Start] leaves the package-level
    messages in the same state and either fails under both or succeeds
    under both with the same server arguments, group store, goroutines,
    rate limiter and last-value caches; only the reported error and the
    order of the backend names kept for shutdown can differ. *)
Theorem Start_iteration_order (E : Env)
    (order : Z → ∀ A, gmap string A → list (string * A))
    (config : Config) (g : Globals) :
  range_sound E → range_sound (with_range E order) →
  distinct_paths E config →
  (Start (with_range E order) config g).1 = (Start E config g).1
  ∧ agree same_outcome
      (Start (with_range E order) config g).2 (Start E config g).2.
Proof.
  intros HE HE' Hinj. unfold Start.
  pose proof (Start_validate_order E order config HE HE') as Hval.
  destruct (Start_validate (with_range E order) config) as [[rc1 lim1]|e1],
    (Start_validate E config) as [[rc2 lim2]|e2]; simpl in Hval; try done.
  injection Hval as -> ->. simpl. split; [done |].
  by apply Start_build_order.
Qed.

Lemma Start_iteration_order_witness :
  agree same_outcome
    (Start (with_range exampleEnv reverseOrder) plainConfig defaultGlobals).2
    (Start exampleEnv plainConfig defaultGlobals).2.
Proof.
  apply (Start_iteration_order exampleEnv reverseOrder plainConfig
           defaultGlobals).
  - intros site A m. reflexivity.
  - intros site A m. apply reverse_Permutation.
  - intros auth secret1 secret2 rs Hauth. discriminate Hauth.
Defined.

(** Under the reversed order the backend names come out in another order. *)
Example Start_reverse_order_names :
  ∃ g1 st1 g2 st2,
    Start (with_range exampleEnv reverseOrder) plainConfig defaultGlobals
    = (g1, Ok st1)
    ∧ Start exampleEnv plainConfig defaultGlobals = (g2, Ok st2)
    ∧ sd_backendNames (st_shutdownFunc st1)
      = reverse (sd_backendNames (st_shutdownFunc st2)).
Proof. eexists _, _, _, _. repeat split; reflexivity. Qed.
